(** * Schema-directed field decoding: [framework.FieldData]

    A shallow embedding of
    [vendor/github.com/hashicorp/vault/logical/framework/field_data.go]
    and the properties its specification states about it.

    Layout: the data model (dynamic values, schema, decoder state), the
    machine-level conversions Go performs ([int(x)] on integers and on
    floats), the collaborators the file imports ([mapstructure],
    [parseutil], [strutil], [regexp]) as an interface, the five methods of
    [FieldData] in a small state-and-panic monad, and then the theorems. *)

From Stdlib Require Import ZArith Ascii String DecimalString Floats.SpecFloat.
From stdpp Require Import gmap strings list.

Local Open Scope Z_scope.
#[local] Set Warnings "-register-all".

(** ** Data model *)

(** [FieldType] is declared outside [field_data.go]; the file only compares
    a schema's type against nine named constants and has a [default] branch
    for everything else.  [TypeOther] stands for every value of the
    underlying type that is none of the nine (the zero value included). *)
Inductive FieldType : Type :=
  | TypeBool
  | TypeInt
  | TypeMap
  | TypeDurationSecond
  | TypeString
  | TypeNameString
  | TypeSlice
  | TypeStringSlice
  | TypeCommaStringSlice
  | TypeOther (tag : N).

(** The case list shared by the switches of [Validate] and [GetOkErr]. *)
Definition recognized (t : FieldType) : bool :=
  match t with
  | TypeBool | TypeInt | TypeMap | TypeDurationSecond | TypeString
  | TypeNameString | TypeSlice | TypeStringSlice | TypeCommaStringSlice => true
  | TypeOther _ => false
  end.

(** Go's [interface{}]: the dynamic values a raw record can hold and the
    accessors can return.  Each Go dynamic type the source's type switch
    distinguishes has its own constructor; [VNil] is the nil interface.
    Integers carry their mathematical value, floats their IEEE-754 datum. *)
Inductive value : Type :=
  | VNil
  | VBool (b : bool)
  | VInt (n : Z)
  | VInt8 (n : Z)
  | VInt16 (n : Z)
  | VInt32 (n : Z)
  | VInt64 (n : Z)
  | VUint (n : Z)
  | VUint8 (n : Z)
  | VUint16 (n : Z)
  | VUint32 (n : Z)
  | VUint64 (n : Z)
  | VFloat32 (f : spec_float)
  | VFloat64 (f : spec_float)
  | VString (s : string)
  | VJsonNumber (s : string)
  | VMap (m : list (string * value))
  | VSlice (l : list value)
  | VStringSlice (l : list string).

(** [result == nil] on an [interface{}]. *)
Definition is_nil (v : value) : bool :=
  match v with VNil => true | _ => false end.

(** Errors.  The source builds them with [fmt.Errorf] and [errors.New]; each
    constructor is one call site and carries the arguments of the format.
    [ErrLibrary] is an error handed back by a collaborator. *)
Inductive error : Type :=
  | ErrLibrary (msg : string)
  | ErrUnknownField (k : string)
  | ErrUnknownFieldType (t : FieldType) (k : string)
  | ErrConverting (v : value) (k : string) (e : error)
  | ErrFormatting
  | ErrInvalidInput (v : value).

(** The three [panic] sites of the file, with the arguments of the message,
    and the abort of [FieldType.Zero] (outside the file) on a kind that is
    none of the nine. *)
Inductive panic_msg : Type :=
  | PanicNotInSchema (k : string)
  | PanicErrorReading (k : string) (e : error)
  | PanicUnknownType (t : FieldType)
  | PanicZeroUnknownType (t : FieldType).

(** Modelled from the spec: the declaration of [FieldSchema] is outside
    [field_data.go].  The spec gives it a [type] and an optional [default]
    (display metadata carries no decoding meaning and is left out). *)
Record FieldSchema : Type := mkFieldSchema {
  Type_ : FieldType;
  Default : option value
}.

Record FieldData : Type := mkFieldData {
  Raw : gmap string value;
  Schema : gmap string FieldSchema
}.

(** ** Machine conversions *)

(** Two's-complement reading of the low [bits] bits of [z]. *)
Definition wrap (bits z : Z) : Z :=
  let m := z mod 2 ^ bits in
  if m <? 2 ^ (bits - 1) then m else m - 2 ^ bits.

Definition min_int : Z := - 2 ^ 63.
Definition max_int : Z := 2 ^ 63 - 1.

(** [int(x)] for an integer [x] of any width, [int] being 64 bits wide. *)
Definition int_of (z : Z) : Z := wrap 64 z.

(** The integer part of a float, rounding toward zero; [None] for NaN and
    the infinities. *)
Definition float_trunc (f : spec_float) : option Z :=
  match f with
  | S754_zero _ => Some 0
  | S754_finite s m e =>
      let a := if 0 <=? e then Z.pos m * 2 ^ e else Z.pos m / 2 ^ (- e) in
      Some (if s then - a else a)
  | S754_infinity _ | S754_nan => None
  end.

(** [int(f)] for a float [f].  Go leaves the result implementation-defined
    when the truncated value does not fit; the 64-bit x86 conversion
    instruction gives the most negative integer there, which is what this
    model returns. *)
Definition int_of_float (f : spec_float) : Z :=
  match float_trunc f with
  | Some z => if (min_int <=? z) && (z <=? max_int) then z else min_int
  | None => min_int
  end.

(** binary64 parameters of [SpecFloat]. *)
Definition prec64 : Z := 53.
Definition emax64 : Z := 1024.

Definition float64_of_int (z : Z) : spec_float :=
  binary_normalize prec64 emax64 z 0 false.

(** [time.Duration] is a count of nanoseconds; [Seconds] is the standard
    library's
    [sec := d / Second; nsec := d % Second;
     return float64(sec) + float64(nsec)/1e9]
    with Go's truncating [/] and [%]. *)
Definition Second : Z := 1000000000.

Definition Seconds (d : Z) : spec_float :=
  let sec := Z.quot d Second in
  let nsec := Z.rem d Second in
  SFadd prec64 emax64 (float64_of_int sec)
        (SFdiv prec64 emax64 (float64_of_int nsec) (float64_of_int Second)).

(** ** State and panics *)

(** A method either returns or panics. *)
Inductive outcome (A : Type) : Type :=
  | Ret (a : A)
  | Panic (p : panic_msg).
Arguments Ret {A} a.
Arguments Panic {A} p.

(** The methods have a pointer receiver: they run against the decoder and
    hand it on.  A computation takes the decoder and gives back its outcome
    together with the decoder it leaves behind. *)
Definition M (A : Type) : Type := FieldData → outcome A * FieldData.

Definition ret {A} (a : A) : M A := λ d, (Ret a, d).

Definition bind {A B} (m : M A) (f : A → M B) : M B :=
  λ d, match m d with
       | (Ret a, d') => f a d'
       | (Panic p, d') => (Panic p, d')
       end.

Definition panic {A} (p : panic_msg) : M A := λ d, (Panic p, d).

(** [d.Schema[k]] and [d.Raw[k]] in their two-result form. *)
Definition schema_lookup (k : string) : M (option FieldSchema) :=
  λ d, (Ret (Schema d !! k), d).

Definition raw_lookup (k : string) : M (option value) :=
  λ d, (Ret (Raw d !! k), d).

Declare Scope go_scope.
Delimit Scope go_scope with go.
Notation "x <- m ;; f" := (bind m (λ x, f))
  (at level 100, m at next level, right associativity) : go_scope.

(** What a run returned, and the decoder it left. *)
Definition result_of {A} (m : M A) (d : FieldData) : outcome A := (m d).1.
Definition state_after {A} (m : M A) (d : FieldData) : FieldData := (m d).2.

(** A call to a function that does not touch the decoder and may abort. *)
Definition call {A} (o : outcome A) : M A := λ d, (o, d).

(** Modelled from the spec: [FieldType.Zero], declared outside
    [field_data.go].  The glossary lists the zero values: false, 0, the
    empty string, the empty collection.  A kind outside the nine has none:
    the spec makes an unrecognized kind a hard failure wherever it is
    encountered, so [Zero] aborts on it. *)
Definition Zero (t : FieldType) : outcome value :=
  match t with
  | TypeBool => Ret (VBool false)
  | TypeInt => Ret (VInt 0)
  | TypeMap => Ret (VMap [])
  | TypeDurationSecond => Ret (VInt 0)
  | TypeString => Ret (VString "")
  | TypeNameString => Ret (VString "")
  | TypeSlice => Ret (VSlice [])
  | TypeStringSlice => Ret (VStringSlice [])
  | TypeCommaStringSlice => Ret (VStringSlice [])
  | TypeOther _ => Panic (PanicZeroUnknownType t)
  end.

(** Modelled from the spec: [FieldSchema.DefaultOrZero], declared outside
    [field_data.go]: the schema's configured default, or the type's zero
    value if none is configured. *)
Definition DefaultOrZero (s : FieldSchema) : outcome value :=
  match Default s with
  | Some v => Ret v
  | None => Zero (Type_ s)
  end.

(** ** Collaborators *)

(** The library calls [field_data.go] makes.  Their code is outside the
    file; the decoder is written against this interface and every theorem
    that does not name a concrete input holds for any implementation of it.
    A call is a function of its arguments: it reads the raw value it is
    handed and builds a fresh result.  A failing call returns [inl err].

    - [WeakDecode*]: [mapstructure.WeakDecode(raw, &result)] at each of the
      six result types the file declares;
    - [NewDecoder]: [mapstructure.NewDecoder] on the configuration with the
      comma hook; it can fail, and otherwise yields the [Decode] function;
    - [ParseDurationSecond]: [parseutil.ParseDurationSecond], a
      [time.Duration] in nanoseconds;
    - [Int64]: [json.Number.Int64];
    - [TrimStrings]: [strutil.TrimStrings]. *)
Class Collaborators : Type := {
  WeakDecodeBool : value → error + bool;
  WeakDecodeInt : value → error + Z;
  WeakDecodeString : value → error + string;
  WeakDecodeMap : value → error + list (string * value);
  WeakDecodeSlice : value → error + list value;
  WeakDecodeStringSlice : value → error + list string;
  NewDecoder : error + (value → error + list string);
  ParseDurationSecond : string → error + Z;
  Int64 : string → error + Z;
  TrimStrings : list string → list string
}.

(** ** Regular expressions *)

(** The fragment of Go's [regexp] syntax the file's one pattern uses.
    A character class is its membership test. *)
Inductive regexp : Type :=
  | Void
  | Eps
  | Class_ (p : ascii → bool)
  | Cat (r1 r2 : regexp)
  | Alt (r1 r2 : regexp)
  | Star (r : regexp).

Definition Opt (r : regexp) : regexp := Alt Eps r.
Definition Plus (r : regexp) : regexp := Cat r (Star r).

Fixpoint nullable (r : regexp) : bool :=
  match r with
  | Void => false
  | Eps => true
  | Class_ _ => false
  | Cat r1 r2 => nullable r1 && nullable r2
  | Alt r1 r2 => nullable r1 || nullable r2
  | Star _ => true
  end.

Fixpoint deriv (c : ascii) (r : regexp) : regexp :=
  match r with
  | Void => Void
  | Eps => Void
  | Class_ p => if p c then Eps else Void
  | Cat r1 r2 =>
      if nullable r1 then Alt (Cat (deriv c r1) r2) (deriv c r2)
      else Cat (deriv c r1) r2
  | Alt r1 r2 => Alt (deriv c r1) (deriv c r2)
  | Star r1 => Cat (deriv c r1) (Star r1)
  end.

(** Whole-text match of a sequence of characters. *)
Fixpoint full_match (r : regexp) (w : list ascii) : bool :=
  match w with
  | [] => nullable r
  | c :: w' => full_match (deriv c r) w'
  end.

(** [\w]: [0-9A-Za-z_]. *)
Definition word_char (c : ascii) : bool :=
  let n := N_of_ascii c in
  ((48 <=? n) && (n <=? 57) || (65 <=? n) && (n <=? 90)
   || (97 <=? n) && (n <=? 122) || (n =? 95))%N.

(** [[\w-.]]: a word character, a hyphen or a period. *)
Definition name_char (c : ascii) : bool :=
  word_char c || (N_of_ascii c =? 45)%N || (N_of_ascii c =? 46)%N.

(** The body of ["^\w(([\w-.]+)?\w)?$"]. *)
Definition name_body : regexp :=
  Cat (Class_ word_char)
      (Opt (Cat (Opt (Plus (Class_ name_char))) (Class_ word_char))).

(** [regexp.MatchString("^\w(([\w-.]+)?\w)?$", s)].  Without the
    multi-line flag [^] and [$] hold only at the two ends of the text, so the
    search is a whole-text match of the body.  The pattern is a constant
    that compiles, so the error result is always nil. *)
Definition MatchString_name (s : string) : bool * option error :=
  (full_match name_body (list_ascii_of_string s), None).

(** ** The methods of [FieldData] *)

Section Decoder.
Context `{C : Collaborators}.
Local Open Scope go_scope.

(** The dispatcher: [(value, present, error)]. *)
Definition getPrimitive (k : string) (schema : FieldSchema)
  : M (value * bool * option error) :=
  r <- raw_lookup k ;;
  match r with
  | None => ret (VNil, false, None)
  | Some raw =>
      match Type_ schema with
      | TypeBool =>
          match WeakDecodeBool raw with
          | inl err => ret (VNil, true, Some err)
          | inr result => ret (VBool result, true, None)
          end
      | TypeInt =>
          match WeakDecodeInt raw with
          | inl err => ret (VNil, true, Some err)
          | inr result => ret (VInt result, true, None)
          end
      | TypeString =>
          match WeakDecodeString raw with
          | inl err => ret (VNil, true, Some err)
          | inr result => ret (VString result, true, None)
          end
      | TypeNameString =>
          match WeakDecodeString raw with
          | inl err => ret (VNil, true, Some err)
          | inr result =>
              let '(matched, err) := MatchString_name result in
              match err with
              | Some err => ret (VNil, true, Some err)
              | None =>
                  if negb matched
                  then ret (VNil, true, Some ErrFormatting)
                  else ret (VString result, true, None)
              end
          end
      | TypeMap =>
          match WeakDecodeMap raw with
          | inl err => ret (VNil, true, Some err)
          | inr result => ret (VMap result, true, None)
          end
      | TypeDurationSecond =>
          match raw with
          | VNil => ret (VNil, false, None)
          | VInt inp => ret (VInt inp, true, None)
          | VInt32 inp | VInt64 inp | VUint inp | VUint32 inp | VUint64 inp =>
              ret (VInt (int_of inp), true, None)
          | VFloat32 inp | VFloat64 inp =>
              ret (VInt (int_of_float inp), true, None)
          | VString inp =>
              match ParseDurationSecond inp with
              | inl err => ret (VNil, true, Some err)
              | inr dur => ret (VInt (int_of_float (Seconds dur)), true, None)
              end
          | VJsonNumber inp =>
              match Int64 inp with
              | inl err => ret (VNil, true, Some err)
              | inr valInt64 => ret (VInt (int_of valInt64), true, None)
              end
          | _ => ret (VNil, false, Some (ErrInvalidInput raw))
          end
      | TypeSlice =>
          match WeakDecodeSlice raw with
          | inl err => ret (VNil, true, Some err)
          | inr result => ret (VSlice result, true, None)
          end
      | TypeStringSlice =>
          match WeakDecodeStringSlice raw with
          | inl err => ret (VNil, true, Some err)
          | inr result => ret (VStringSlice (TrimStrings result), true, None)
          end
      | TypeCommaStringSlice =>
          match NewDecoder with
          | inl err => ret (VNil, false, Some err)
          | inr Decode =>
              match Decode raw with
              | inl err => ret (VNil, false, Some err)
              | inr result =>
                  ret (VStringSlice (TrimStrings result), true, None)
              end
          end
      | TypeOther _ => panic (PanicUnknownType (Type_ schema))
      end
  end.

(** The body of [Validate]'s loop over the entries [its], in the order
    they are visited; [None] is the nil error. *)
Fixpoint Validate_range (its : list (string * value)) : M (option error) :=
  match its with
  | [] => ret None
  | (field, value) :: rest =>
      s <- schema_lookup field ;;
      match s with
      | None => Validate_range rest
      | Some schema =>
          match Type_ schema with
          | TypeBool | TypeInt | TypeMap | TypeDurationSecond | TypeString
          | TypeNameString | TypeSlice | TypeStringSlice
          | TypeCommaStringSlice =>
              r <- getPrimitive field schema ;;
              match r.2 with
              | Some err => ret (Some (ErrConverting value field err))
              | None => Validate_range rest
              end
          | _ => ret (Some (ErrUnknownFieldType (Type_ schema) field))
          end
      end
  end.

(** [for field, value := range d.Raw]: Go visits the entries of a map in
    an order it does not fix.  [Validate] takes the order of one run. *)
Definition Validate (its : list (string * value)) : M (option error) :=
  Validate_range its.

Definition GetOkErr (k : string) : M (value * bool * option error) :=
  s <- schema_lookup k ;;
  match s with
  | None => ret (VNil, false, Some (ErrUnknownField k))
  | Some schema =>
      match Type_ schema with
      | TypeBool | TypeInt | TypeMap | TypeDurationSecond | TypeString
      | TypeNameString | TypeSlice | TypeStringSlice
      | TypeCommaStringSlice => getPrimitive k schema
      | _ => ret (VNil, false, Some (ErrUnknownFieldType (Type_ schema) k))
      end
  end.

Definition GetOk (k : string) : M (value * bool) :=
  s <- schema_lookup k ;;
  match s with
  | None => ret (VNil, false)
  | Some schema =>
      r <- GetOkErr k ;;
      let '(result, ok, err) := r in
      match err with
      | Some err => panic (PanicErrorReading k err)
      | None =>
          result <- (if ok && is_nil result
                     then call (DefaultOrZero schema) else ret result) ;;
          ret (result, ok)
      end
  end.

Definition Get (k : string) : M value :=
  s <- schema_lookup k ;;
  match s with
  | None => panic (PanicNotInSchema k)
  | Some schema =>
      r <- GetOk k ;;
      let '(value, ok) := r in
      value <- (if negb ok
                then call (DefaultOrZero schema) else ret value) ;;
      ret value
  end.

Definition GetDefaultOrZero (k : string) : M value :=
  s <- schema_lookup k ;;
  match s with
  | None => panic (PanicNotInSchema k)
  | Some schema => call (DefaultOrZero schema)
  end.

End Decoder.

(** [its] is an order in which a [range] over [d.Raw] can visit its
    entries: each entry once, in any order. *)
Definition iteration (d : FieldData) (its : list (string * value)) : Prop :=
  its ≡ₚ map_to_list (Raw d).

(** ** A model of the collaborators *)

(** The concrete inputs of the specification ("2m", "a, b ,c", ...) need
    concrete collaborators.  [Lib] holds small executable models of them. *)
Module Lib.

Definition is_space (c : ascii) : bool :=
  let n := N_of_ascii c in ((n =? 32) || (9 <=? n) && (n <=? 13))%N.

Fixpoint trim_left (s : string) : string :=
  match s with
  | String c s' => if is_space c then trim_left s' else s
  | EmptyString => EmptyString
  end.

Fixpoint trim_right (s : string) : string :=
  match s with
  | String c s' =>
      match trim_right s' with
      | EmptyString => if is_space c then EmptyString else String c EmptyString
      | t => String c t
      end
  | EmptyString => EmptyString
  end.

(** Modelled from the spec: the String Normalizer, [strutil.TrimStrings],
    whose code is outside [field_data.go]: trims leading and trailing
    whitespace from each element, preserving order and count. *)
Definition TrimSpace (s : string) : string := trim_right (trim_left s).
Definition TrimStrings (l : list string) : list string := map TrimSpace l.

(** [split_on sep s]: the pieces of [s] between occurrences of [sep]. *)
Fixpoint split_on (sep : ascii) (s : string) : list string :=
  match s with
  | EmptyString => [EmptyString]
  | String c s' =>
      if Ascii.eqb c sep then EmptyString :: split_on sep s'
      else match split_on sep s' with
           | piece :: rest => String c piece :: rest
           | [] => [String c EmptyString]
           end
  end.

Definition digit (c : ascii) : option Z :=
  let n := N_of_ascii c in
  if ((48 <=? n) && (n <=? 57))%N then Some (Z.of_N n - 48) else None.

Fixpoint digits_from (acc : Z) (s : string) : option Z :=
  match s with
  | EmptyString => Some acc
  | String c s' =>
      match digit c with
      | Some v => digits_from (10 * acc + v) s'
      | None => None
      end
  end.

(** A non-empty run of decimal digits. *)
Definition parse_digits (s : string) : option Z :=
  match s with
  | EmptyString => None
  | _ => digits_from 0 s
  end.

(** An optionally signed decimal integer. *)
Definition parse_int (s : string) : option Z :=
  match s with
  | String "-" s' => Z.opp <$> parse_digits s'
  | String "+" s' => parse_digits s'
  | _ => parse_digits s
  end.

Definition in_int64 (z : Z) : bool := (min_int <=? z) && (z <=? max_int).

(** [json.Number.Int64]: the number's text read as a 64-bit decimal
    integer. *)
Definition Int64 (s : string) : error + Z :=
  match parse_int s with
  | Some z => if in_int64 z then inr z else inl (ErrLibrary "value out of range")
  | None => inl (ErrLibrary "invalid syntax")
  end.

(** Everything but the last character, and the last character. *)
Fixpoint unsnoc (s : string) : option (string * ascii) :=
  match s with
  | EmptyString => None
  | String c s' =>
      match unsnoc s' with
      | None => Some (EmptyString, c)
      | Some (init, last) => Some (String c init, last)
      end
  end.

Definition unit_seconds (c : ascii) : option Z :=
  if Ascii.eqb c "s" then Some 1
  else if Ascii.eqb c "m" then Some 60
  else if Ascii.eqb c "h" then Some 3600
  else None.

(** Modelled from the spec: the Duration Parser,
    [parseutil.ParseDurationSecond], whose code is outside
    [field_data.go]: [parse(text) → duration | ParseError], accepting
    human-readable duration syntax such as "30s" and "5m".  The model
    covers the one form the examples use, a decimal count followed by one
    of the units s, m, h, and gives the duration in nanoseconds; any
    other text is a parse error. *)
Definition ParseDurationSecond (s : string) : error + Z :=
  match unsnoc s with
  | Some (count, u) =>
      match parse_digits count, unit_seconds u with
      | Some n, Some per =>
          let d := n * per * Second in
          if in_int64 d then inr d else inl (ErrLibrary "invalid duration")
      | _, _ => inl (ErrLibrary "invalid duration")
      end
  | None => inl (ErrLibrary "invalid duration")
  end.

Definition string_of_Z (z : Z) : string := NilZero.string_of_int (Z.to_int z).

(** The integer carried by a value of an integer kind. *)
Definition integer_of (v : value) : option Z :=
  match v with
  | VInt n | VInt8 n | VInt16 n | VInt32 n | VInt64 n
  | VUint n | VUint8 n | VUint16 n | VUint32 n | VUint64 n => Some n
  | _ => None
  end.

Definition mismatch {A} (target : string) : error + A :=
  inl (ErrLibrary ("expected type " +:+ target)).

(** Modelled from the spec: the Weak decoder, [mapstructure.WeakDecode],
    whose code is outside [field_data.go]: given a dynamically-typed
    source and a target shape, produce the shape if the source is
    representationally compatible (numeric string → number, number →
    string, a boolean-like value → boolean), otherwise fail with a decode
    error.  A nil source leaves the target at its zero value. *)
Definition WeakDecodeBool (raw : value) : error + bool :=
  match raw with
  | VNil => inr false
  | VBool b => inr b
  | VString "true" | VString "1" => inr true
  | VString "false" | VString "0" => inr false
  | _ =>
      match integer_of raw with
      | Some n => inr (negb (n =? 0))
      | None => mismatch "bool"
      end
  end.

Definition WeakDecodeInt (raw : value) : error + Z :=
  match raw with
  | VNil => inr 0
  | VBool b => inr (if b then 1 else 0)
  | VString s =>
      match parse_int s with
      | Some n => inr (int_of n)
      | None => mismatch "int"
      end
  | _ =>
      match integer_of raw with
      | Some n => inr (int_of n)
      | None => mismatch "int"
      end
  end.

Definition WeakDecodeString (raw : value) : error + string :=
  match raw with
  | VNil => inr EmptyString
  | VString s => inr s
  | VBool b => inr (if b then "1" else "0")%string
  | _ =>
      match integer_of raw with
      | Some n => inr (string_of_Z n)
      | None => mismatch "string"
      end
  end.

Definition WeakDecodeMap (raw : value) : error + list (string * value) :=
  match raw with
  | VNil => inr []
  | VMap m => inr m
  | _ => mismatch "map"
  end.

Definition WeakDecodeSlice (raw : value) : error + list value :=
  match raw with
  | VNil => inr []
  | VSlice l => inr l
  | VStringSlice l => inr (VString <$> l)
  | _ => mismatch "slice"
  end.

(** Every element decoded to a string, or the first failure. *)
Fixpoint decode_strings (l : list value) : error + list string :=
  match l with
  | [] => inr []
  | v :: l' =>
      match WeakDecodeString v, decode_strings l' with
      | inr s, inr ss => inr (s :: ss)
      | inl e, _ => inl e
      | _, inl e => inl e
      end
  end.

Definition WeakDecodeStringSlice (raw : value) : error + list string :=
  match raw with
  | VNil => inr []
  | VStringSlice l => inr l
  | VSlice l => decode_strings l
  | _ => mismatch "string slice"
  end.

(** The sequence a comma-delimited text stands for: its pieces between
    commas; the empty text holds no piece. *)
Definition comma_pieces (s : string) : list string :=
  match s with
  | EmptyString => []
  | _ => split_on "," s
  end.

(** Modelled from the spec: the comma-split variant of the Weak decoder
    (the decoder built with [mapstructure.StringToSliceHookFunc(",")],
    whose code is outside [field_data.go]): it additionally splits a
    single string on commas into a sequence before decoding into a string
    sequence. *)
Definition DecodeComma (raw : value) : error + list string :=
  match raw with
  | VString s => inr (comma_pieces s)
  | _ => WeakDecodeStringSlice raw
  end.

End Lib.

#[export] Instance lib : Collaborators := {|
  WeakDecodeBool := Lib.WeakDecodeBool;
  WeakDecodeInt := Lib.WeakDecodeInt;
  WeakDecodeString := Lib.WeakDecodeString;
  WeakDecodeMap := Lib.WeakDecodeMap;
  WeakDecodeSlice := Lib.WeakDecodeSlice;
  WeakDecodeStringSlice := Lib.WeakDecodeStringSlice;
  NewDecoder := inr Lib.DecodeComma;
  ParseDurationSecond := Lib.ParseDurationSecond;
  Int64 := Lib.Int64;
  TrimStrings := Lib.TrimStrings
|}.

(** ** Vocabulary of the specification *)

(** The specification's wording of the name rule: the text starts and ends
    with a word character, and every character strictly between the first
    and the last is a word character, a hyphen or a period. *)
Definition starts_with_word (w : list ascii) : bool :=
  match head w with Some c => word_char c | None => false end.

Definition ends_with_word (w : list ascii) : bool :=
  match last w with Some c => word_char c | None => false end.

Definition interior (w : list ascii) : list ascii := removelast (tail w).

Definition name_ok (s : string) : bool :=
  let w := list_ascii_of_string s in
  starts_with_word w && ends_with_word w && forallb name_char (interior w).

(** The specification's wording of splitting and trimming.  [join] puts
    the separator back between the pieces; [occurs] says a character is in a
    text; [blank] texts are made of whitespace; a [trimmed] text neither
    starts nor ends with whitespace. *)
Fixpoint join (sep : ascii) (l : list string) : string :=
  match l with
  | [] => EmptyString
  | x :: rest =>
      match rest with
      | [] => x
      | _ :: _ => x +:+ String sep (join sep rest)
      end
  end.

Fixpoint occurs (c : ascii) (s : string) : bool :=
  match s with
  | EmptyString => false
  | String c' s' => Ascii.eqb c' c || occurs c s'
  end.

Fixpoint blank (s : string) : bool :=
  match s with
  | EmptyString => true
  | String c s' => Lib.is_space c && blank s'
  end.

Definition first_char (s : string) : option ascii :=
  match s with
  | EmptyString => None
  | String c _ => Some c
  end.

Fixpoint last_char (s : string) : option ascii :=
  match s with
  | EmptyString => None
  | String c s' =>
      match last_char s' with
      | None => Some c
      | Some l => Some l
      end
  end.

Definition not_space (o : option ascii) : bool :=
  match o with
  | Some c => negb (Lib.is_space c)
  | None => true
  end.

Definition trimmed (s : string) : bool :=
  not_space (first_char s) && not_space (last_char s).

(** The raw kinds the duration switch has a case for. *)
Definition duration_case (raw : value) : bool :=
  match raw with
  | VNil | VInt _ | VInt32 _ | VInt64 _ | VUint _ | VUint32 _ | VUint64 _
  | VFloat32 _ | VFloat64 _ | VString _ | VJsonNumber _ => true
  | _ => false
  end.

(** The shapes that are neither numbers nor text. *)
Definition other_shape (raw : value) : bool :=
  match raw with
  | VBool _ | VMap _ | VSlice _ | VStringSlice _ => true
  | _ => false
  end.

(** The entries of a visit whose key the schema knows. *)
Definition known (d : FieldData) (kv : string * value) : bool :=
  bool_decide (is_Some (Schema d !! kv.1)).

Section Contracts.
Context `{C : Collaborators}.

(** "The field coerces successfully under its declared type": the type is
    one of the nine and the dispatcher reports no error for the key. *)
Definition coerces (d : FieldData) (k : string) (s : FieldSchema) : bool :=
  recognized (Type_ s) &&
  match result_of (getPrimitive k s) d with
  | Ret (_, _, None) => true
  | _ => false
  end.

(** "Coercion of a raw value fails", type by type, after the table of the
    specification: the collaborator that decodes for the type rejects the
    value, the decoded name breaks the pattern, or the value has a shape
    the duration type does not take. *)
Inductive coercion_fails : FieldType → value → error → Prop :=
  | fails_bool raw e :
      WeakDecodeBool raw = inl e → coercion_fails TypeBool raw e
  | fails_int raw e :
      WeakDecodeInt raw = inl e → coercion_fails TypeInt raw e
  | fails_string raw e :
      WeakDecodeString raw = inl e → coercion_fails TypeString raw e
  | fails_name_decode raw e :
      WeakDecodeString raw = inl e → coercion_fails TypeNameString raw e
  | fails_name_format raw str :
      WeakDecodeString raw = inr str → name_ok str = false →
      coercion_fails TypeNameString raw ErrFormatting
  | fails_map raw e :
      WeakDecodeMap raw = inl e → coercion_fails TypeMap raw e
  | fails_duration_text str e :
      ParseDurationSecond str = inl e →
      coercion_fails TypeDurationSecond (VString str) e
  | fails_duration_number str e :
      Int64 str = inl e →
      coercion_fails TypeDurationSecond (VJsonNumber str) e
  | fails_duration_shape raw :
      duration_case raw = false →
      coercion_fails TypeDurationSecond raw (ErrInvalidInput raw)
  | fails_slice raw e :
      WeakDecodeSlice raw = inl e → coercion_fails TypeSlice raw e
  | fails_string_slice raw e :
      WeakDecodeStringSlice raw = inl e →
      coercion_fails TypeStringSlice raw e
  | fails_comma_config raw e :
      NewDecoder = inl e → coercion_fails TypeCommaStringSlice raw e
  | fails_comma raw Decode e :
      NewDecoder = inr Decode → Decode raw = inl e →
      coercion_fails TypeCommaStringSlice raw e.

(** The operations of the decoder, and a run of a sequence of them.  A run
    keeps going after a panic, as a caller that recovers would. *)
Inductive operation : Type :=
  | OpValidate (its : list (string * value))
  | OpGet (k : string)
  | OpGetDefaultOrZero (k : string)
  | OpGetOk (k : string)
  | OpGetOkErr (k : string).

Definition run_operation (o : operation) (d : FieldData) : FieldData :=
  match o with
  | OpValidate its => state_after (Validate its) d
  | OpGet k => state_after (Get k) d
  | OpGetDefaultOrZero k => state_after (GetDefaultOrZero k) d
  | OpGetOk k => state_after (GetOk k) d
  | OpGetOkErr k => state_after (GetOkErr k) d
  end.

Definition run_operations (os : list operation) (d : FieldData) : FieldData :=
  foldl (λ d o, run_operation o d) d os.

End Contracts.

(** Two calls in succession: the second runs on the decoder the first
    leaves; both results are kept. *)
Definition twice {A} (m : M A) (d : FieldData) : outcome A * outcome A :=
  (result_of m d, result_of m (state_after m d)).

(** Whether an outcome is the panic of the dispatcher's [default] branch. *)
Definition panics_unknown_type {A} (o : outcome A) : bool :=
  match o with
  | Panic (PanicUnknownType _) => true
  | _ => false
  end.

(** ** Decoders used by the examples *)

Definition decoder (raw : list (string * value))
    (schema : list (string * FieldSchema)) : FieldData :=
  mkFieldData (list_to_map raw) (list_to_map schema).

(** An entry whose schema type is the zero value of [FieldType]. *)
Definition untyped_decoder : FieldData :=
  decoder [("mode", VString "fast")]
          [("mode", mkFieldSchema (TypeOther 0) None)].

(** Two entries fail: "a" does not decode, "b" has no recognized type. *)
Definition two_failures : FieldData :=
  decoder [("a", VString "x"); ("b", VInt 1)]
          [("a", mkFieldSchema TypeInt None);
           ("b", mkFieldSchema (TypeOther 0) None)].

(** A schema with a time-to-live field and an empty raw record. *)
Definition empty_request : FieldData :=
  decoder [] [("ttl", mkFieldSchema TypeDurationSecond (Some (VInt 30)))].

(** A schema entry whose type is none of the nine, and no raw value for it. *)
Definition untyped_absent : FieldData :=
  decoder [] [("mode", mkFieldSchema (TypeOther 0) (Some (VInt 5)))].

(** The raw record holds the key, with a nil value. *)
Definition nil_ttl_request : FieldData :=
  decoder [("ttl", VNil)]
          [("ttl", mkFieldSchema TypeDurationSecond (Some (VInt 30)))].

(** A present value that does not decode under its declared type. *)
Definition bad_count_request : FieldData :=
  decoder [("count", VString "many")]
          [("count", mkFieldSchema TypeInt (Some (VInt 1)))].

Definition name_request (name : string) : FieldData :=
  decoder [("name", VString name)]
          [("name", mkFieldSchema TypeNameString None)].

Definition ttl_request (raw : value) : FieldData :=
  decoder [("ttl", raw)] [("ttl", mkFieldSchema TypeDurationSecond None)].

(** One and a half seconds, as a binary64 float. *)
Definition one_and_a_half : spec_float := S754_finite false 3 (-1).

Definition tags_request : FieldData :=
  decoder [("tags", VString "a, b ,c")]
          [("tags", mkFieldSchema TypeCommaStringSlice None)].

(** ** Kinds and ranges *)

(** The Go type of the [result] variable the dispatcher declares for each
    schema type: what a caller may assert the decoded value to be. *)
Definition has_kind (t : FieldType) (v : value) : bool :=
  match t, v with
  | TypeBool, VBool _ => true
  | TypeInt, VInt _ => true
  | TypeDurationSecond, VInt _ => true
  | TypeString, VString _ => true
  | TypeNameString, VString _ => true
  | TypeMap, VMap _ => true
  | TypeSlice, VSlice _ => true
  | TypeStringSlice, VStringSlice _ => true
  | TypeCommaStringSlice, VStringSlice _ => true
  | _, _ => false
  end.

Definition in_range (lo hi n : Z) : bool := (lo <=? n) && (n <=? hi).

(** A value of an integer kind carries an integer of that kind's range. *)
Definition well_formed (v : value) : bool :=
  match v with
  | VInt n | VInt64 n => in_range min_int max_int n
  | VInt8 n => in_range (- 2 ^ 7) (2 ^ 7 - 1) n
  | VInt16 n => in_range (- 2 ^ 15) (2 ^ 15 - 1) n
  | VInt32 n => in_range (- 2 ^ 31) (2 ^ 31 - 1) n
  | VUint n | VUint64 n => in_range 0 (2 ^ 64 - 1) n
  | VUint8 n => in_range 0 (2 ^ 8 - 1) n
  | VUint16 n => in_range 0 (2 ^ 16 - 1) n
  | VUint32 n => in_range 0 (2 ^ 32 - 1) n
  | _ => true
  end.

(** The integer kinds the duration switch converts with [int(inp)]. *)
Definition converted_integer (raw : value) : option Z :=
  match raw with
  | VInt n | VInt32 n | VInt64 n | VUint n | VUint32 n | VUint64 n => Some n
  | _ => None
  end.

(** The decoder with the raw value of one key replaced. *)
Definition with_raw (k : string) (v : value) (d : FieldData) : FieldData :=
  mkFieldData (<[k := v]> (Raw d)) (Schema d).

Section Failing.
Context `{C : Collaborators}.

(** The entry of a visit an error [e] of [Validate]'s loop comes from:
    a visited key the schema knows, whose type is not recognized or whose
    value the dispatcher rejects. *)
Definition failing_entry (d : FieldData) (its : list (string * value))
    (e : error) : Prop :=
  ∃ k v s, (k, v) ∈ its ∧ Schema d !! k = Some s
    ∧ ((recognized (Type_ s) = false ∧ e = ErrUnknownFieldType (Type_ s) k)
       ∨ (∃ x ok e', recognized (Type_ s) = true
            ∧ result_of (getPrimitive k s) d = Ret (x, ok, Some e')
            ∧ e = ErrConverting v k e')).

End Failing.

(** A request with two fields that both decode, and its two halves. *)
Definition service_schema : list (string * FieldSchema) :=
  [("ttl", mkFieldSchema TypeDurationSecond None);
   ("name", mkFieldSchema TypeNameString None)].

Definition service_request : FieldData :=
  decoder [("ttl", VString "2m"); ("name", VString "web-1")] service_schema.

Definition service_ttl_only : FieldData :=
  decoder [("ttl", VString "2m")] service_schema.

Definition service_name_only : FieldData :=
  decoder [("name", VString "web-1")] service_schema.

Section FailsDef.
Context `{C : Collaborators}.

(** A key of the request that does not validate: it is in the raw record
    and in the schema and does not coerce under its declared type. *)
Definition fails (d : FieldData) (k : string) : Prop :=
  ∃ v s, Raw d !! k = Some v ∧ Schema d !! k = Some s
         ∧ coerces d k s = false.

(** The error [Validate] has for a failing key. *)
Definition fails_with (d : FieldData) (k : string) (e : error) : Prop :=
  ∃ v s, Raw d !! k = Some v ∧ Schema d !! k = Some s
    ∧ ((recognized (Type_ s) = false ∧ e = ErrUnknownFieldType (Type_ s) k)
       ∨ (∃ x ok e', recognized (Type_ s) = true
            ∧ result_of (getPrimitive k s) d = Ret (x, ok, Some e')
            ∧ e = ErrConverting v k e')).

End FailsDef.

(** A text made of name characters only. *)
Definition name_chars (s : string) : bool :=
  forallb name_char (list_ascii_of_string s).

(** * Theorems *)

(** ** The matcher *)

Section Matcher.
Implicit Types (r : regexp) (w : list ascii) (c : ascii).

Lemma full_match_Void w : full_match Void w = false.
Proof. induction w as [|c w IH]; simpl; auto. Qed.

Lemma full_match_Eps w : full_match Eps w = bool_decide (w = []).
Proof. destruct w as [|c w]; simpl; [done|]. by rewrite full_match_Void. Qed.

Lemma full_match_Class p w :
  full_match (Class_ p) w = match w with [c] => p c | _ => false end.
Proof.
  destruct w as [|c w]; simpl; [done|].
  destruct (p c).
  - rewrite full_match_Eps. by destruct w.
  - rewrite full_match_Void. by destruct w.
Qed.

Lemma full_match_Alt r1 r2 w :
  full_match (Alt r1 r2) w = full_match r1 w || full_match r2 w.
Proof. revert r1 r2. induction w as [|c w IH]; intros; simpl; auto. Qed.

(** A concatenation matches exactly the texts that split into a match of
    each side. *)
Lemma full_match_Cat r1 r2 w :
  full_match (Cat r1 r2) w = true ↔
  ∃ w1 w2, w = w1 ++ w2 ∧ full_match r1 w1 = true ∧ full_match r2 w2 = true.
Proof.
  revert r1. induction w as [|c w IH]; intros r1; simpl.
  - rewrite andb_true_iff. split.
    + intros [H1 H2]. by exists [], [].
    + intros (w1 & w2 & Hw & H1 & H2).
      symmetry in Hw. apply app_eq_nil in Hw as [-> ->]. auto.
  - destruct (nullable r1) eqn:Hn.
    + rewrite full_match_Alt, orb_true_iff, IH. split.
      * intros [(w1 & w2 & -> & H1 & H2) | H2].
        -- by exists (c :: w1), w2.
        -- by exists [], (c :: w).
      * intros (w1 & w2 & Hw & H1 & H2). destruct w1 as [|c' w1].
        -- simpl in Hw. subst w2. by right.
        -- simpl in Hw. injection Hw as <- ->. left. by exists w1, w2.
    + rewrite IH. split.
      * intros (w1 & w2 & -> & H1 & H2). by exists (c :: w1), w2.
      * intros (w1 & w2 & Hw & H1 & H2). destruct w1 as [|c' w1].
        -- simpl in H1. congruence.
        -- simpl in Hw. injection Hw as <- ->. by exists w1, w2.
Qed.

Lemma full_match_Cat_Eps r w : full_match (Cat Eps r) w = full_match r w.
Proof.
  apply eq_true_iff_eq. rewrite full_match_Cat. split.
  - intros (w1 & w2 & -> & H1 & H2).
    rewrite full_match_Eps in H1. apply bool_decide_eq_true in H1. by subst.
  - intros H. by exists [], w.
Qed.

Lemma full_match_Cat_Void r w : full_match (Cat Void r) w = false.
Proof.
  apply not_true_is_false. rewrite full_match_Cat.
  intros (w1 & w2 & _ & H1 & _). by rewrite full_match_Void in H1.
Qed.

(** The star of a character class matches the texts made of that class. *)
Lemma full_match_Star_Class p w :
  full_match (Star (Class_ p)) w = forallb p w.
Proof.
  induction w as [|c w IH]; simpl; [done|].
  destruct (p c); simpl.
  - by rewrite full_match_Cat_Eps.
  - by rewrite full_match_Cat_Void.
Qed.

Lemma full_match_Opt_Plus_Class p w :
  full_match (Opt (Plus (Class_ p))) w = forallb p w.
Proof.
  unfold Opt, Plus. rewrite full_match_Alt, full_match_Eps.
  destruct w as [|c w]; simpl; [done|].
  destruct (p c); simpl.
  - by rewrite full_match_Cat_Eps, full_match_Star_Class.
  - by rewrite full_match_Cat_Void.
Qed.

(** The tail of the pattern, [(([\w-.]+)?\w)], matches the texts that are
    name characters followed by one word character. *)
Lemma full_match_name_tail w :
  full_match (Cat (Opt (Plus (Class_ name_char))) (Class_ word_char)) w = true
  ↔ ∃ mid l, w = mid ++ [l] ∧ forallb name_char mid = true ∧ word_char l = true.
Proof.
  rewrite full_match_Cat. split.
  - intros (w1 & w2 & -> & H1 & H2).
    rewrite full_match_Opt_Plus_Class in H1.
    rewrite full_match_Class in H2.
    destruct w2 as [|l [|??]]; try discriminate. by exists w1, l.
  - intros (mid & l & -> & H1 & H2). exists mid, [l].
    by rewrite full_match_Opt_Plus_Class, full_match_Class.
Qed.

Lemma interior_snoc c mid l : interior (c :: mid ++ [l]) = mid.
Proof. unfold interior. simpl. apply removelast_last. Qed.

(** The pattern of the source accepts exactly the names the specification
    describes. *)
Lemma MatchString_name_ok s : MatchString_name s = (name_ok s, None).
Proof.
  unfold MatchString_name, name_ok. f_equal.
  destruct (list_ascii_of_string s) as [|c w]; [done|].
  unfold name_body. simpl.
  unfold starts_with_word. simpl. destruct (word_char c) eqn:Hc; simpl.
  2:{ by rewrite full_match_Cat_Void. }
  rewrite full_match_Cat_Eps. unfold Opt at 1.
  rewrite full_match_Alt, full_match_Eps.
  destruct w as [|c' w'] using rev_ind.
  { simpl. unfold ends_with_word. simpl. by rewrite Hc. }
  clear IHw'.
  rewrite bool_decide_eq_false_2 by (by destruct w').
  simpl. rewrite interior_snoc.
  unfold ends_with_word.
  change (c :: w' ++ [c']) with ((c :: w') ++ [c']). rewrite last_snoc.
  apply eq_true_iff_eq. rewrite full_match_name_tail, andb_true_iff. split.
  - intros (mid & l & Hw & H1 & H2).
    apply app_inj_tail in Hw as [-> ->]. auto.
  - intros [H1 H2]. by exists w', c'.
Qed.

Lemma full_match_name_ok s :
  full_match name_body (list_ascii_of_string s) = name_ok s.
Proof. pose proof (MatchString_name_ok s) as H. by injection H. Qed.

End Matcher.

(** ** The dispatcher and the accessors *)

Ltac run :=
  unfold result_of, state_after, GetOkErr, GetOk, Get, GetDefaultOrZero,
    getPrimitive, MatchString_name, bind, ret, panic, call, schema_lookup,
    raw_lookup in *;
  simpl in *.

Ltac cases := repeat (case_match; simpl in *; simplify_eq); eauto.

Section DecoderFacts.
Context `{C : Collaborators}.
Implicit Types (d : FieldData) (k : string) (s : FieldSchema).

Lemma getPrimitive_state k s d : state_after (getPrimitive k s) d = d.
Proof. run; cases. Qed.

Lemma getPrimitive_absent k s d :
  Raw d !! k = None → result_of (getPrimitive k s) d = Ret (VNil, false, None).
Proof. intros H. run. by rewrite H. Qed.

Lemma getPrimitive_raw k s d d' :
  Raw d !! k = Raw d' !! k →
  result_of (getPrimitive k s) d = result_of (getPrimitive k s) d'.
Proof. intros H. run. rewrite H. cases. Qed.

Lemma getPrimitive_returns k s d :
  recognized (Type_ s) = true → ∃ r, result_of (getPrimitive k s) d = Ret r.
Proof. intros H. run. cases. Qed.

Lemma getPrimitive_error_nil k s d v ok e :
  result_of (getPrimitive k s) d = Ret (v, ok, Some e) → v = VNil.
Proof. intros H. run. cases. Qed.

Lemma getPrimitive_value_present k s d v ok :
  result_of (getPrimitive k s) d = Ret (v, ok, None) →
  (v ≠ VNil ↔ ok = true).
Proof. intros H. run. cases; split; intros; congruence. Qed.

Lemma getPrimitive_present_raw k s d v e :
  result_of (getPrimitive k s) d = Ret (v, true, e) → is_Some (Raw d !! k).
Proof. intros H. run. cases. Qed.

Lemma getPrimitive_run k s d :
  getPrimitive k s d = (result_of (getPrimitive k s) d, d).
Proof.
  rewrite <- (getPrimitive_state k s d) at 3.
  unfold result_of, state_after. by destruct (getPrimitive k s d).
Qed.

Lemma Validate_range_cons k v rest d :
  result_of (Validate_range ((k, v) :: rest)) d =
  match Schema d !! k with
  | None => result_of (Validate_range rest) d
  | Some s =>
      if recognized (Type_ s) then
        match result_of (getPrimitive k s) d with
        | Ret (_, _, Some err) => Ret (Some (ErrConverting v k err))
        | Ret (_, _, None) => result_of (Validate_range rest) d
        | Panic p => Panic p
        end
      else Ret (Some (ErrUnknownFieldType (Type_ s) k))
  end.
Proof.
  unfold result_of at 1. simpl. unfold bind at 1, schema_lookup. simpl.
  destruct (Schema d !! k) as [s|]; [|done].
  destruct (Type_ s) eqn:Ht; simpl; try done.
  all: unfold bind; rewrite getPrimitive_run.
  all: destruct (result_of (getPrimitive k s) d) as [[[x ok] [e|]]|p]; done.
Qed.

Lemma Validate_range_state its d : state_after (Validate_range its) d = d.
Proof.
  induction its as [|[k v] rest IH]; [done|].
  unfold state_after in *. simpl. unfold bind at 1, schema_lookup. simpl.
  destruct (Schema d !! k) as [s|]; [|done].
  destruct (Type_ s) eqn:Ht; simpl; try done.
  all: unfold bind; rewrite getPrimitive_run.
  all: destruct (result_of (getPrimitive k s) d) as [[[x ok] [e|]]|p]; done.
Qed.

Lemma Validate_range_returns its d :
  ∃ e, result_of (Validate_range its) d = Ret e.
Proof.
  induction its as [|[k v] rest IH]; [by exists None|].
  rewrite Validate_range_cons.
  destruct (Schema d !! k) as [s|]; [|done].
  destruct (recognized (Type_ s)) eqn:Hr; [|eauto].
  destruct (getPrimitive_returns k s d Hr) as [[[x ok] [e|]] ->]; eauto.
Qed.

Lemma Validate_range_success its d :
  result_of (Validate_range its) d = Ret None ↔
  ∀ k v s, (k, v) ∈ its → Schema d !! k = Some s → coerces d k s = true.
Proof.
  induction its as [|[k v] rest IH].
  - split; [|done]. intros _ k v s Hin. by apply elem_of_nil in Hin.
  - rewrite Validate_range_cons. split.
    + intros H k' v' s' Hin Hs'.
      apply elem_of_cons in Hin as [Heq|Hin].
      * injection Heq as -> ->. rewrite Hs' in H. unfold coerces.
        destruct (recognized (Type_ s')); [|done]. simpl.
        by destruct (result_of (getPrimitive k s') d) as [[[x ok] [e|]]|p].
      * destruct (Schema d !! k) as [s|] eqn:Hs.
        -- destruct (recognized (Type_ s)); [|done].
           destruct (result_of (getPrimitive k s) d) as [[[x ok] [e|]]|p];
             try done.
           by apply (proj1 IH H k' v').
        -- by apply (proj1 IH H k' v').
    + intros H.
      assert (Hrest : result_of (Validate_range rest) d = Ret None).
      { apply IH. intros k' v' s' Hin. apply (H k' v'). by right. }
      destruct (Schema d !! k) as [s|] eqn:Hs; [|done].
      specialize (H k v s (list_elem_of_here _ _) Hs).
      unfold coerces in H. apply andb_true_iff in H as [-> H].
      by destruct (result_of (getPrimitive k s) d) as [[[x ok] [e|]]|p].
Qed.

Lemma Validate_range_app pre rest d :
  result_of (Validate_range pre) d = Ret None →
  result_of (Validate_range (pre ++ rest)) d
  = result_of (Validate_range rest) d.
Proof.
  induction pre as [|[k v] pre IH]; [done|].
  simpl app. rewrite !Validate_range_cons.
  destruct (Schema d !! k) as [s|]; [|done].
  destruct (recognized (Type_ s)); [|done].
  by destruct (result_of (getPrimitive k s) d) as [[[x ok] [e|]]|p].
Qed.

Lemma Validate_range_ext its d d' :
  (∀ k v, (k, v) ∈ its →
          Schema d' !! k = Schema d !! k ∧ Raw d' !! k = Raw d !! k) →
  result_of (Validate_range its) d' = result_of (Validate_range its) d.
Proof.
  induction its as [|[k v] rest IH]; intros H; [done|].
  rewrite !Validate_range_cons.
  destruct (H k v (list_elem_of_here _ _)) as [-> Hraw].
  rewrite IH by (intros k' v' Hin; apply (H k' v'); by right).
  destruct (Schema d !! k) as [s|]; [|done].
  by rewrite (getPrimitive_raw k s d' d Hraw).
Qed.

Lemma elem_of_iteration d its k v :
  iteration d its → (k, v) ∈ its ↔ Raw d !! k = Some v.
Proof.
  unfold iteration. intros ->. apply elem_of_map_to_list.
Qed.

Lemma coerces_raw k s d d' :
  Raw d' !! k = Raw d !! k → coerces d' k s = coerces d k s.
Proof. intros H. unfold coerces. by rewrite (getPrimitive_raw k s d' d H). Qed.

(** [GetOkErr] *)

Lemma GetOkErr_unknown k d :
  Schema d !! k = None →
  result_of (GetOkErr k) d = Ret (VNil, false, Some (ErrUnknownField k)).
Proof. intros H. unfold result_of, GetOkErr, bind, schema_lookup. simpl. by rewrite H. Qed.

Lemma GetOkErr_unrecognized k s d :
  Schema d !! k = Some s → recognized (Type_ s) = false →
  result_of (GetOkErr k) d
  = Ret (VNil, false, Some (ErrUnknownFieldType (Type_ s) k)).
Proof.
  intros H Hr. unfold result_of, GetOkErr, bind, schema_lookup. simpl.
  rewrite H. by destruct (Type_ s).
Qed.

Lemma GetOkErr_recognized k s d :
  Schema d !! k = Some s → recognized (Type_ s) = true →
  result_of (GetOkErr k) d = result_of (getPrimitive k s) d.
Proof.
  intros H Hr. unfold result_of, GetOkErr, bind, schema_lookup. simpl.
  rewrite H. by destruct (Type_ s).
Qed.

Lemma GetOkErr_state k d : state_after (GetOkErr k) d = d.
Proof.
  unfold state_after, GetOkErr, bind, schema_lookup. simpl.
  destruct (Schema d !! k) as [s|]; [|done].
  destruct (Type_ s); try done; apply getPrimitive_state.
Qed.

Lemma GetOkErr_run k d : GetOkErr k d = (result_of (GetOkErr k) d, d).
Proof.
  rewrite <- (GetOkErr_state k d) at 3.
  unfold result_of, state_after. by destruct (GetOkErr k d).
Qed.

Lemma GetOkErr_returns k d : ∃ r, result_of (GetOkErr k) d = Ret r.
Proof.
  destruct (Schema d !! k) as [s|] eqn:Hs.
  - destruct (recognized (Type_ s)) eqn:Hr.
    + rewrite (GetOkErr_recognized k s d Hs Hr). by apply getPrimitive_returns.
    + rewrite (GetOkErr_unrecognized k s d Hs Hr). eauto.
  - rewrite (GetOkErr_unknown k d Hs). eauto.
Qed.

(** Without an error, a value is reported present exactly when it is not
    nil. *)
Lemma GetOkErr_value_present k d v ok :
  result_of (GetOkErr k) d = Ret (v, ok, None) → (v ≠ VNil ↔ ok = true).
Proof.
  destruct (Schema d !! k) as [s|] eqn:Hs.
  - destruct (recognized (Type_ s)) eqn:Hr.
    + rewrite (GetOkErr_recognized k s d Hs Hr).
      apply getPrimitive_value_present.
    + by rewrite (GetOkErr_unrecognized k s d Hs Hr).
  - by rewrite (GetOkErr_unknown k d Hs).
Qed.

Lemma GetOkErr_not_nil_present k d v :
  result_of (GetOkErr k) d = Ret (v, true, None) → is_nil v = false.
Proof.
  intros H. apply GetOkErr_value_present in H.
  destruct v; try done. exfalso. by apply H.
Qed.

(** [GetOk] *)

(** The substitution of [GetOk] is for a value that is present and nil,
    which [GetOkErr] never reports: [GetOk] hands on the value and the
    flag. *)
Lemma GetOk_eq k d :
  result_of (GetOk k) d =
  match Schema d !! k with
  | None => Ret (VNil, false)
  | Some s =>
      match result_of (GetOkErr k) d with
      | Ret (v, ok, Some e) => Panic (PanicErrorReading k e)
      | Ret (v, ok, None) => Ret (v, ok)
      | Panic p => Panic p
      end
  end.
Proof.
  unfold result_of at 1. unfold GetOk, bind at 1, schema_lookup. simpl.
  destruct (Schema d !! k) as [s|]; [|done].
  unfold bind at 1. rewrite GetOkErr_run.
  destruct (result_of (GetOkErr k) d) as [[[v ok] [e|]]|p] eqn:HG;
    [done | | done].
  destruct ok; simpl; [|done].
  by rewrite (GetOkErr_not_nil_present k d v HG).
Qed.

Lemma GetOk_state k d : state_after (GetOk k) d = d.
Proof.
  unfold state_after, GetOk, bind at 1, schema_lookup. simpl.
  destruct (Schema d !! k) as [s|]; [|done].
  unfold bind at 1. rewrite GetOkErr_run.
  destruct (result_of (GetOkErr k) d) as [[[v ok] [e|]]|p];
    [done | | done].
  unfold bind, call, ret.
  by destruct (ok && is_nil v), (DefaultOrZero s).
Qed.

Lemma GetOk_run k d : GetOk k d = (result_of (GetOk k) d, d).
Proof.
  rewrite <- (GetOk_state k d) at 3.
  unfold result_of, state_after. by destruct (GetOk k d).
Qed.

(** [Get] and [GetDefaultOrZero] *)

Lemma Get_eq k d :
  result_of (Get k) d =
  match Schema d !! k with
  | None => Panic (PanicNotInSchema k)
  | Some s =>
      match result_of (GetOk k) d with
      | Ret (v, ok) => if negb ok then DefaultOrZero s else Ret v
      | Panic p => Panic p
      end
  end.
Proof.
  unfold result_of at 1. unfold Get, bind at 1, schema_lookup. simpl.
  destruct (Schema d !! k) as [s|]; [|done].
  unfold bind at 1. rewrite GetOk_run.
  destruct (result_of (GetOk k) d) as [[v ok]|p]; [|done].
  unfold bind, call, ret. by destruct ok, (DefaultOrZero s).
Qed.

Lemma Get_state k d : state_after (Get k) d = d.
Proof.
  unfold state_after, Get, bind at 1, schema_lookup. simpl.
  destruct (Schema d !! k) as [s|]; [|done].
  unfold bind at 1. rewrite GetOk_run.
  destruct (result_of (GetOk k) d) as [[v ok]|p]; [|done].
  unfold bind, call, ret. by destruct ok, (DefaultOrZero s).
Qed.

Lemma GetDefaultOrZero_eq k d :
  result_of (GetDefaultOrZero k) d =
  match Schema d !! k with
  | None => Panic (PanicNotInSchema k)
  | Some s => DefaultOrZero s
  end.
Proof.
  unfold result_of, GetDefaultOrZero, bind, schema_lookup. simpl.
  by destruct (Schema d !! k).
Qed.

Lemma GetDefaultOrZero_state k d : state_after (GetDefaultOrZero k) d = d.
Proof.
  unfold state_after, GetDefaultOrZero, bind, schema_lookup. simpl.
  by destruct (Schema d !! k).
Qed.

(** The default-or-zero value of a schema entry of a recognized type:
    the configured default, or the zero value of the type. *)
Lemma DefaultOrZero_recognized s :
  recognized (Type_ s) = true →
  ∃ dz, DefaultOrZero s = Ret dz
        ∧ (∀ v, Default s = Some v → dz = v)
        ∧ (Default s = None → Zero (Type_ s) = Ret dz).
Proof.
  intros Hr. unfold DefaultOrZero. destruct (Default s) as [v|].
  - exists v. split_and!; [done | by intros ? [= <-] | done].
  - destruct (Type_ s); try discriminate; eexists; split_and!; done.
Qed.

(** The abort of [DefaultOrZero] is not the dispatcher's. *)
Lemma DefaultOrZero_panic s : panics_unknown_type (DefaultOrZero s) = false.
Proof.
  unfold DefaultOrZero. destruct (Default s); [done|]. by destruct (Type_ s).
Qed.
End DecoderFacts.

(** ** The decoder is read-only *)

Section ReadOnly.
Context `{C : Collaborators}.

Lemma run_operation_id (o : operation) (d : FieldData) : run_operation o d = d.
Proof.
  destruct o; simpl.
  - apply Validate_range_state.
  - apply Get_state.
  - apply GetDefaultOrZero_state.
  - apply GetOk_state.
  - apply GetOkErr_state.
Qed.

Lemma run_operations_id (os : list operation) (d : FieldData) :
  run_operations os d = d.
Proof.
  unfold run_operations. revert d.
  induction os as [|o os IH]; intros d; simpl; [done|].
  by rewrite run_operation_id.
Qed.

Lemma twice_same {A} (m : M A) (d : FieldData) :
  state_after m d = d → (twice m d).1 = (twice m d).2.
Proof. unfold twice. simpl. by intros ->. Qed.

End ReadOnly.

(** C9.  No operation of the decoder ([Validate], [Get], [GetOk],
    [GetOkErr], [GetDefaultOrZero]) changes the raw record or the schema
    map: after any sequence of these operations both mappings are what they
    were before it. *)
Theorem operations_leave_decoder_unchanged `{C : Collaborators}
    (os : list operation) (d : FieldData) :
  Raw (run_operations os d) = Raw d ∧ Schema (run_operations os d) = Schema d.
Proof. by rewrite run_operations_id. Qed.

(** C8.  For every key and each of the accessors [Get], [GetOk], [GetOkErr]
    and [GetDefaultOrZero], two calls in succession on a decoder nobody else
    touches give the same result both times. *)
Theorem accessors_repeat `{C : Collaborators} (k : string) (d : FieldData) :
  (twice (Get k) d).1 = (twice (Get k) d).2
  ∧ (twice (GetOk k) d).1 = (twice (GetOk k) d).2
  ∧ (twice (GetOkErr k) d).1 = (twice (GetOkErr k) d).2
  ∧ (twice (GetDefaultOrZero k) d).1 = (twice (GetDefaultOrZero k) d).2.
Proof.
  repeat split; apply twice_same.
  - apply Get_state.
  - apply GetOk_state.
  - apply GetOkErr_state.
  - apply GetDefaultOrZero_state.
Qed.

(** ** The panic of the dispatcher *)

Section UnknownType.
Context `{C : Collaborators}.
Implicit Types (d : FieldData) (k : string) (s : FieldSchema).

Lemma getPrimitive_unrecognized k s d v :
  Raw d !! k = Some v → recognized (Type_ s) = false →
  result_of (getPrimitive k s) d = Panic (PanicUnknownType (Type_ s)).
Proof. intros Hv Hr. run. rewrite Hv. by destruct (Type_ s). Qed.

Lemma Validate_unrecognized_first k v rest s d :
  Schema d !! k = Some s → recognized (Type_ s) = false →
  result_of (Validate ((k, v) :: rest)) d
  = Ret (Some (ErrUnknownFieldType (Type_ s) k)).
Proof.
  intros Hs Hr. unfold Validate. by rewrite Validate_range_cons, Hs, Hr.
Qed.

Lemma returns_no_panic {A} (o : outcome A) :
  (∃ a, o = Ret a) → panics_unknown_type o = false.
Proof. by intros [a ->]. Qed.

Lemma GetOk_no_unknown_type_panic k d :
  panics_unknown_type (result_of (GetOk k) d) = false.
Proof.
  rewrite GetOk_eq. destruct (Schema d !! k) as [s|]; [|done].
  destruct (GetOkErr_returns k d) as [[[v ok] [e|]] ->]; done.
Qed.

Lemma Get_no_unknown_type_panic k d :
  panics_unknown_type (result_of (Get k) d) = false.
Proof.
  rewrite Get_eq. destruct (Schema d !! k) as [s|]; [|done].
  pose proof (GetOk_no_unknown_type_panic k d) as H.
  destruct (result_of (GetOk k) d) as [[v ok]|p]; [|done].
  destruct ok; [done|]. apply DefaultOrZero_panic.
Qed.

End UnknownType.

(** C10.  The unknown-type panic of the dispatcher ([getPrimitive]'s default
    case) cannot be reached through the public interface.  No public
    operation ends in that panic; [Validate] and [GetOkErr], the two callers
    of the dispatcher, answer a schema type outside the nine recognized
    kinds with an error of their own; and the branch itself is live: called
    directly on a present key with such a type, the dispatcher panics. *)
Theorem unknown_type_panic_unreachable `{C : Collaborators}
    (d : FieldData) (k : string) (its : list (string * value)) :
  panics_unknown_type (result_of (Validate its) d) = false
  ∧ panics_unknown_type (result_of (GetOkErr k) d) = false
  ∧ panics_unknown_type (result_of (GetOk k) d) = false
  ∧ panics_unknown_type (result_of (Get k) d) = false
  ∧ panics_unknown_type (result_of (GetDefaultOrZero k) d) = false
  ∧ (∀ s, Schema d !! k = Some s → recognized (Type_ s) = false →
       result_of (GetOkErr k) d
       = Ret (VNil, false, Some (ErrUnknownFieldType (Type_ s) k))
       ∧ (∀ v rest, result_of (Validate ((k, v) :: rest)) d
                    = Ret (Some (ErrUnknownFieldType (Type_ s) k)))
       ∧ (∀ v, Raw d !! k = Some v →
               result_of (getPrimitive k s) d
               = Panic (PanicUnknownType (Type_ s)))).
Proof.
  split_and!.
  - apply returns_no_panic, Validate_range_returns.
  - apply returns_no_panic, GetOkErr_returns.
  - apply GetOk_no_unknown_type_panic.
  - apply Get_no_unknown_type_panic.
  - rewrite GetDefaultOrZero_eq.
    destruct (Schema d !! k); [apply DefaultOrZero_panic | done].
  - intros s Hs Hr. split_and!.
    + by apply GetOkErr_unrecognized.
    + intros v rest. by apply Validate_unrecognized_first.
    + intros v Hv. by apply (getPrimitive_unrecognized k s d v).
Qed.

Lemma unknown_type_panic_unreachable_witness :
  Schema untyped_decoder !! "mode" = Some (mkFieldSchema (TypeOther 0) None)
  ∧ recognized (TypeOther 0) = false
  ∧ Raw untyped_decoder !! "mode" = Some (VString "fast")
  ∧ result_of (GetOkErr "mode") untyped_decoder
    = Ret (VNil, false, Some (ErrUnknownFieldType (TypeOther 0) "mode"))
  ∧ result_of (getPrimitive "mode" (mkFieldSchema (TypeOther 0) None))
      untyped_decoder
    = Panic (PanicUnknownType (TypeOther 0)).
Proof.
  destruct (unknown_type_panic_unreachable untyped_decoder "mode" [])
    as (_ & _ & _ & _ & _ & H).
  destruct (H (mkFieldSchema (TypeOther 0) None)) as (H1 & _ & H3);
    [reflexivity | reflexivity |].
  split_and!; [reflexivity | reflexivity | reflexivity | exact H1 |].
  apply (H3 (VString "fast")). reflexivity.
Defined.

(** ** [Validate] *)

Section ValidateFacts.
Context `{C : Collaborators}.
Implicit Types (d : FieldData) (k : string) (s : FieldSchema).

Lemma Validate_success d its :
  iteration d its →
  result_of (Validate its) d = Ret None ↔
  ∀ k v s, Raw d !! k = Some v → Schema d !! k = Some s →
           coerces d k s = true.
Proof.
  intros Hit. unfold Validate. rewrite Validate_range_success. split.
  - intros H k v s Hv. apply (H k v). by apply (elem_of_iteration d).
  - intros H k v s Hin. apply (H k v). by apply (elem_of_iteration d its).
Qed.

Lemma Validate_skips_unknown d its :
  result_of (Validate its) d = result_of (Validate (filter (known d) its)) d.
Proof.
  unfold Validate. induction its as [|[k v] rest IH]; [done|].
  destruct (Schema d !! k) as [s|] eqn:Hs.
  - rewrite filter_cons_True
      by (unfold known; simpl; rewrite Hs; apply bool_decide_pack; eauto).
    rewrite !Validate_range_cons, Hs, IH. done.
  - rewrite filter_cons_False.
    + by rewrite Validate_range_cons, Hs.
    + unfold known. simpl. rewrite Hs. intros H.
      apply bool_decide_unpack in H. by destruct H.
Qed.

Lemma Validate_fails d its k v s :
  iteration d its → Raw d !! k = Some v → Schema d !! k = Some s →
  coerces d k s = false → ∃ e, result_of (Validate its) d = Ret (Some e).
Proof.
  intros Hit Hv Hs Hc.
  destruct (Validate_range_returns its d) as [[e|] He]; [by exists e|].
  pose proof (proj1 (Validate_success d its Hit) He) as H.
  rewrite (H k v s Hv Hs) in Hc. discriminate.
Qed.

End ValidateFacts.

(** C1 (as amended).  For every order [its] in which the raw record can be
    visited: [Validate] returns success if and only if every key present in
    both the raw record and the schema coerces successfully under its
    declared type.  Keys of the raw record the schema does not know never
    affect the result: two decoders with the same schema whose raw records
    agree on the schema's keys validate alike, and dropping the unknown
    entries from the visit changes nothing.  Keys the schema declares and
    the raw record lacks are not checked: changing their entries changes
    nothing.  If a present, schema-known key has an unrecognized type,
    [Validate] returns an error; that error names this field and this type
    when no entry visited before it fails. *)
Theorem Validate_success_iff `{C : Collaborators}
    (d : FieldData) (its : list (string * value)) :
  iteration d its →
  (result_of (Validate its) d = Ret None ↔
   ∀ k v s, Raw d !! k = Some v → Schema d !! k = Some s →
            coerces d k s = true)
  ∧ (∀ d' its',
       Schema d' = Schema d →
       (∀ k, is_Some (Schema d !! k) → Raw d' !! k = Raw d !! k) →
       iteration d' its' →
       (result_of (Validate its') d' = Ret None ↔
        result_of (Validate its) d = Ret None))
  ∧ result_of (Validate its) d = result_of (Validate (filter (known d) its)) d
  ∧ (∀ d',
       Raw d' = Raw d →
       (∀ k, is_Some (Raw d !! k) → Schema d' !! k = Schema d !! k) →
       result_of (Validate its) d' = result_of (Validate its) d)
  ∧ (∀ k v s,
       Raw d !! k = Some v → Schema d !! k = Some s →
       recognized (Type_ s) = false →
       (∃ e, result_of (Validate its) d = Ret (Some e))
       ∧ (∀ pre post,
            its = pre ++ (k, v) :: post →
            result_of (Validate pre) d = Ret None →
            result_of (Validate its) d
            = Ret (Some (ErrUnknownFieldType (Type_ s) k)))).
Proof.
  intros Hit. split_and!.
  - by apply Validate_success.
  - intros d' its' HS Hraw Hit'.
    rewrite (Validate_success d its Hit), (Validate_success d' its' Hit'), HS.
    split; intros H k v s Hv Hs.
    + rewrite <- (coerces_raw k s d d') by (apply Hraw; eauto).
      apply (H k v); [|done]. rewrite Hraw; eauto.
    + rewrite (coerces_raw k s d d') by (apply Hraw; eauto).
      apply (H k v); [|done]. rewrite <- Hraw; eauto.
  - apply Validate_skips_unknown.
  - intros d' HR HS. unfold Validate. apply Validate_range_ext.
    intros k v Hin. apply (elem_of_iteration d its k v Hit) in Hin.
    split; [apply HS; eauto | by rewrite HR].
  - intros k v s Hv Hs Hr. split.
    + apply (Validate_fails d its k v s Hit Hv Hs).
      unfold coerces. by rewrite Hr.
    + intros pre post -> Hpre. unfold Validate in *.
      rewrite (Validate_range_app pre _ d Hpre).
      by apply Validate_unrecognized_first.
Qed.

Lemma Validate_success_iff_witness :
  iteration untyped_decoder [("mode", VString "fast")]
  ∧ result_of (Validate [("mode", VString "fast")]) untyped_decoder
    = Ret (Some (ErrUnknownFieldType (TypeOther 0) "mode")).
Proof.
  assert (Hit : iteration untyped_decoder [("mode", VString "fast")]).
  { unfold iteration. vm_compute. reflexivity. }
  split; [exact Hit|].
  destruct (Validate_success_iff untyped_decoder _ Hit) as (_ & _ & _ & _ & H).
  destruct (H "mode" (VString "fast") (mkFieldSchema (TypeOther 0) None))
    as [_ H']; [reflexivity | reflexivity | reflexivity |].
  apply (H' [] []); reflexivity.
Defined.

(** Visiting "a" first, [Validate] reports "a"; the unrecognized type of
    the present, schema-known key "b" is not what the error names. *)
Lemma Validate_reports_first_failure :
  iteration two_failures [("a", VString "x"); ("b", VInt 1)]
  ∧ Raw two_failures !! "b" = Some (VInt 1)
  ∧ Schema two_failures !! "b" = Some (mkFieldSchema (TypeOther 0) None)
  ∧ recognized (TypeOther 0) = false
  ∧ result_of (Validate [("a", VString "x"); ("b", VInt 1)]) two_failures
    = Ret (Some (ErrConverting (VString "x") "a"
                   (ErrLibrary "expected type int")))
  ∧ result_of (Validate [("a", VString "x"); ("b", VInt 1)]) two_failures
    ≠ Ret (Some (ErrUnknownFieldType (TypeOther 0) "b")).
Proof.
  split_and!; try reflexivity.
  - unfold iteration. vm_compute. reflexivity.
  - vm_compute. discriminate.
Qed.

(** ** [GetOkErr] *)

Section GetOkErrFacts.
Context `{C : Collaborators}.
Implicit Types (d : FieldData) (k : string) (s : FieldSchema).

Lemma coercion_fails_recognized t raw e :
  coercion_fails t raw e → recognized t = true.
Proof. by destruct 1. Qed.

Lemma getPrimitive_fails k s d raw e :
  Raw d !! k = Some raw → coercion_fails (Type_ s) raw e →
  ∃ ok, result_of (getPrimitive k s) d = Ret (VNil, ok, Some e).
Proof.
  intros Hraw Hf. unfold result_of, getPrimitive, bind, raw_lookup, ret.
  simpl. rewrite Hraw.
  inversion Hf as [? ? H Ht|? ? H Ht|? ? H Ht|? ? H Ht|? ? H H' Ht|? ? H Ht
                  |? ? H Ht|? ? H Ht|? H Ht|? ? H Ht|? ? H Ht|? ? H Ht
                  |? ? ? H H' Ht]; subst; simpl.
  all: try (rewrite H; eauto; fail).
  - rewrite H, full_match_name_ok, H'. simpl. eauto.
  - destruct raw; try discriminate; eauto.
  - rewrite H, H'. eauto.
Qed.

Lemma getPrimitive_error_fails k s d raw v ok e :
  Raw d !! k = Some raw →
  result_of (getPrimitive k s) d = Ret (v, ok, Some e) →
  coercion_fails (Type_ s) raw e.
Proof.
  intros Hraw H. unfold result_of, getPrimitive, bind, raw_lookup in H.
  simpl in H. rewrite Hraw in H. unfold ret, panic in H.
  destruct (Type_ s); simpl in H.
  - destruct (WeakDecodeBool raw) eqn:Hd; simpl in H; simplify_eq. by constructor.
  - destruct (WeakDecodeInt raw) eqn:Hd; simpl in H; simplify_eq. by constructor.
  - destruct (WeakDecodeMap raw) eqn:Hd; simpl in H; simplify_eq. by constructor.
  - destruct raw as [| | | | | | | | | | | | | |str|str| | |];
      simpl in H; simplify_eq; try (by apply fails_duration_shape).
    + destruct (ParseDurationSecond str) eqn:Hd; simpl in H; simplify_eq.
      by constructor.
    + destruct (Int64 str) eqn:Hd; simpl in H; simplify_eq. by constructor.
  - destruct (WeakDecodeString raw) eqn:Hd; simpl in H; simplify_eq. by constructor.
  - destruct (WeakDecodeString raw) as [e'|str] eqn:Hd; simpl in H; simplify_eq.
    + by constructor.
    + rewrite full_match_name_ok in H.
      destruct (name_ok str) eqn:Hn; simpl in H; simplify_eq.
      by eapply fails_name_format.
  - destruct (WeakDecodeSlice raw) eqn:Hd; simpl in H; simplify_eq. by constructor.
  - destruct (WeakDecodeStringSlice raw) eqn:Hd; simpl in H; simplify_eq. by constructor.
  - destruct NewDecoder as [e'|dec] eqn:Hn; simpl in H; simplify_eq.
    + by constructor.
    + destruct (dec raw) eqn:Hd; simpl in H; simplify_eq. by eapply fails_comma.
  - discriminate.
Qed.

Lemma GetOkErr_error_nil k d v ok e :
  result_of (GetOkErr k) d = Ret (v, ok, Some e) → v = VNil.
Proof.
  destruct (Schema d !! k) as [s|] eqn:Hs.
  - destruct (recognized (Type_ s)) eqn:Hr.
    + rewrite (GetOkErr_recognized k s d Hs Hr).
      apply getPrimitive_error_nil.
    + rewrite (GetOkErr_unrecognized k s d Hs Hr). congruence.
  - rewrite (GetOkErr_unknown k d Hs). congruence.
Qed.

End GetOkErrFacts.

(** C2 (as amended).  For every key, [GetOkErr] never aborts.  It returns
    an error and no value when the key has no schema entry, an error when
    the key's schema type is outside the recognized set, an error (and no
    value) when coercion of a present raw value fails, and [(nil, false,
    nil)] when the key has a schema entry of a recognized type but is absent
    from the raw record.  An error never comes with a value, and an error
    for a present key of a recognized type is always a failed coercion. *)
Theorem GetOkErr_never_aborts `{C : Collaborators} (d : FieldData) (k : string) :
  (∃ r, result_of (GetOkErr k) d = Ret r)
  ∧ (∀ v ok e, result_of (GetOkErr k) d = Ret (v, ok, Some e) → v = VNil)
  ∧ (Schema d !! k = None →
     result_of (GetOkErr k) d = Ret (VNil, false, Some (ErrUnknownField k)))
  ∧ (∀ s, Schema d !! k = Some s → recognized (Type_ s) = false →
          result_of (GetOkErr k) d
          = Ret (VNil, false, Some (ErrUnknownFieldType (Type_ s) k)))
  ∧ (∀ s raw e, Schema d !! k = Some s → Raw d !! k = Some raw →
                coercion_fails (Type_ s) raw e →
                ∃ ok, result_of (GetOkErr k) d = Ret (VNil, ok, Some e))
  ∧ (∀ s raw v ok e, Schema d !! k = Some s → recognized (Type_ s) = true →
                     Raw d !! k = Some raw →
                     result_of (GetOkErr k) d = Ret (v, ok, Some e) →
                     coercion_fails (Type_ s) raw e)
  ∧ (∀ s, Schema d !! k = Some s → recognized (Type_ s) = true →
          Raw d !! k = None →
          result_of (GetOkErr k) d = Ret (VNil, false, None)).
Proof.
  split_and!.
  - apply GetOkErr_returns.
  - apply GetOkErr_error_nil.
  - apply GetOkErr_unknown.
  - intros s. apply GetOkErr_unrecognized.
  - intros s raw e Hs Hraw Hf.
    rewrite (GetOkErr_recognized k s d Hs (coercion_fails_recognized _ _ _ Hf)).
    by apply (getPrimitive_fails k s d raw).
  - intros s raw v ok e Hs Hr Hraw H.
    rewrite (GetOkErr_recognized k s d Hs Hr) in H.
    by apply (getPrimitive_error_fails k s d raw v ok).
  - intros s Hs Hr Hraw. rewrite (GetOkErr_recognized k s d Hs Hr).
    by apply getPrimitive_absent.
Qed.

Lemma GetOkErr_never_aborts_witness :
  Schema empty_request !! "ttl"
  = Some (mkFieldSchema TypeDurationSecond (Some (VInt 30)))
  ∧ Raw empty_request !! "ttl" = None
  ∧ result_of (GetOkErr "ttl") empty_request = Ret (VNil, false, None).
Proof.
  split_and!; [reflexivity | reflexivity |].
  destruct (GetOkErr_never_aborts empty_request "ttl")
    as (_ & _ & _ & _ & _ & _ & H).
  apply (H (mkFieldSchema TypeDurationSecond (Some (VInt 30)))); reflexivity.
Defined.

(** The key has a schema entry and is absent from the raw record, and
    [GetOkErr] answers with an error, not with [(nil, false, nil)]. *)
Lemma GetOkErr_absent_unrecognized :
  Schema untyped_absent !! "mode"
  = Some (mkFieldSchema (TypeOther 0) (Some (VInt 5)))
  ∧ Raw untyped_absent !! "mode" = None
  ∧ result_of (GetOkErr "mode") untyped_absent
    = Ret (VNil, false, Some (ErrUnknownFieldType (TypeOther 0) "mode"))
  ∧ result_of (GetOkErr "mode") untyped_absent ≠ Ret (VNil, false, None).
Proof. split_and!; try reflexivity. vm_compute. discriminate. Qed.

(** ** [GetOk], [Get] and [GetDefaultOrZero] *)

Section GetOkFacts.
Context `{C : Collaborators}.
Implicit Types (d : FieldData) (k : string) (s : FieldSchema).

Lemma getPrimitive_duration_nil k s d :
  Type_ s = TypeDurationSecond → Raw d !! k = Some VNil →
  result_of (getPrimitive k s) d = Ret (VNil, false, None).
Proof. intros Ht Hraw. run. by rewrite Hraw, Ht. Qed.

Lemma GetOk_absent k s d :
  Schema d !! k = Some s → recognized (Type_ s) = true →
  Raw d !! k = None → result_of (GetOk k) d = Ret (VNil, false).
Proof.
  intros Hs Hr Hraw.
  by rewrite GetOk_eq, Hs, (GetOkErr_recognized k s d Hs Hr),
    (getPrimitive_absent k s d Hraw).
Qed.

Lemma GetOk_duration_nil k s d :
  Schema d !! k = Some s → Type_ s = TypeDurationSecond →
  Raw d !! k = Some VNil → result_of (GetOk k) d = Ret (VNil, false).
Proof.
  intros Hs Ht Hraw.
  assert (Hr : recognized (Type_ s) = true) by by rewrite Ht.
  by rewrite GetOk_eq, Hs, (GetOkErr_recognized k s d Hs Hr),
    (getPrimitive_duration_nil k s d Ht Hraw).
Qed.

(** What [GetOkErr] reports without an error comes from the dispatcher. *)
Lemma GetOkErr_value k s d v ok :
  Schema d !! k = Some s → result_of (GetOkErr k) d = Ret (v, ok, None) →
  result_of (getPrimitive k s) d = Ret (v, ok, None).
Proof.
  intros Hs H. destruct (recognized (Type_ s)) eqn:Hr.
  - by rewrite <- (GetOkErr_recognized k s d Hs Hr).
  - by rewrite (GetOkErr_unrecognized k s d Hs Hr) in H.
Qed.

Lemma GetOk_present k d v :
  result_of (GetOk k) d = Ret (v, true) →
  v ≠ VNil ∧ is_Some (Raw d !! k)
  ∧ result_of (GetOkErr k) d = Ret (v, true, None).
Proof.
  rewrite GetOk_eq. destruct (Schema d !! k) as [s|] eqn:Hs; [|done].
  destruct (result_of (GetOkErr k) d) as [[[v0 ok] [e|]]|p] eqn:HG;
    try done.
  intros H. injection H as Hv ->.
  pose proof (GetOkErr_value k s d v0 true Hs HG) as HP.
  assert (Hnn : v0 ≠ VNil)
    by by apply (getPrimitive_value_present k s d v0 true HP).
  destruct v0; simpl in Hv; try done; subst v;
    (split_and!; [done | by eapply getPrimitive_present_raw | done]).
Qed.

End GetOkFacts.

(** C5 (as amended).  [GetOk] on a key unknown in the schema returns
    [(nil, false)].  On a field of a recognized type absent from the raw
    record it returns [(nil, false)]: the value is nil, the default-or-zero
    value is substituted by [Get], not by [GetOk].  A nil raw value under
    the duration-second type decodes without error to nil and is reported as
    [(nil, false)] too.  A successfully decoded non-nil value is returned
    unchanged with present=true, and its key is in the raw record.
    Whenever [GetOk] reports present=true the value is the non-nil value
    [GetOkErr] decoded: no default is ever substituted for a present field. *)
Theorem GetOk_present_flag `{C : Collaborators} (d : FieldData) (k : string) :
  (Schema d !! k = None → result_of (GetOk k) d = Ret (VNil, false))
  ∧ (∀ s, Schema d !! k = Some s → recognized (Type_ s) = true →
          Raw d !! k = None → result_of (GetOk k) d = Ret (VNil, false))
  ∧ (∀ s, Schema d !! k = Some s → Type_ s = TypeDurationSecond →
          Raw d !! k = Some VNil → result_of (GetOk k) d = Ret (VNil, false))
  ∧ (∀ s v ok, Schema d !! k = Some s →
               result_of (GetOkErr k) d = Ret (v, ok, None) → v ≠ VNil →
               ok = true ∧ is_Some (Raw d !! k)
               ∧ result_of (GetOk k) d = Ret (v, true))
  ∧ (∀ v, result_of (GetOk k) d = Ret (v, true) →
          v ≠ VNil ∧ is_Some (Raw d !! k)
          ∧ result_of (GetOkErr k) d = Ret (v, true, None)).
Proof.
  split_and!.
  - intros Hs. by rewrite GetOk_eq, Hs.
  - intros s. apply GetOk_absent.
  - intros s. apply GetOk_duration_nil.
  - intros s v ok Hs HG Hv.
    pose proof (GetOkErr_value k s d v ok Hs HG) as HP.
    assert (ok = true) as ->
      by by apply (getPrimitive_value_present k s d v ok HP).
    split_and!; [done | by eapply getPrimitive_present_raw |].
    rewrite GetOk_eq, Hs, HG. by destruct v.
  - apply GetOk_present.
Qed.

Lemma GetOk_present_flag_witness :
  Schema empty_request !! "ttl"
  = Some (mkFieldSchema TypeDurationSecond (Some (VInt 30)))
  ∧ Raw empty_request !! "ttl" = None
  ∧ result_of (GetOk "ttl") empty_request = Ret (VNil, false).
Proof.
  split_and!; [reflexivity | reflexivity |].
  destruct (GetOk_present_flag empty_request "ttl") as (_ & H & _).
  apply (H (mkFieldSchema TypeDurationSecond (Some (VInt 30)))); reflexivity.
Defined.

(** On an absent field [GetOk] returns nil, not the configured default 30;
    and on a field that is present and decodes without error to nil it
    reports present=false and substitutes nothing. *)
Lemma GetOk_does_not_substitute :
  (Raw empty_request !! "ttl" = None
   ∧ DefaultOrZero (mkFieldSchema TypeDurationSecond (Some (VInt 30)))
     = Ret (VInt 30)
   ∧ result_of (GetOk "ttl") empty_request = Ret (VNil, false)
   ∧ result_of (GetOk "ttl") empty_request ≠ Ret (VInt 30, false))
  ∧ (Raw nil_ttl_request !! "ttl" = Some VNil
     ∧ result_of (GetOkErr "ttl") nil_ttl_request = Ret (VNil, false, None)
     ∧ result_of (GetOk "ttl") nil_ttl_request = Ret (VNil, false)
     ∧ result_of (GetOk "ttl") nil_ttl_request ≠ Ret (VInt 30, true)).
Proof.
  split; split_and!; try reflexivity; vm_compute; discriminate.
Qed.

(** C7 (as amended).  [Get] and [GetDefaultOrZero] on a key with no schema
    entry abort.  On a key with a schema entry of a recognized type there
    is a default-or-zero value: the schema's configured default, or the
    type's zero value if none is configured.  [GetDefaultOrZero] returns
    it.  [Get] returns it when the field is absent from the raw record,
    when a duration-second field holds a nil raw value, and in general
    whenever [GetOk] reports the field as not present; when [GetOk] reports
    it present, [Get] returns the decoded value. *)
Theorem Get_default_or_zero `{C : Collaborators} (d : FieldData) (k : string) :
  (Schema d !! k = None →
   result_of (Get k) d = Panic (PanicNotInSchema k)
   ∧ result_of (GetDefaultOrZero k) d = Panic (PanicNotInSchema k))
  ∧ (∀ s, Schema d !! k = Some s → recognized (Type_ s) = true →
       ∃ dz, DefaultOrZero s = Ret dz
         ∧ (∀ v, Default s = Some v → dz = v)
         ∧ (Default s = None → Zero (Type_ s) = Ret dz)
         ∧ result_of (GetDefaultOrZero k) d = Ret dz
         ∧ (Raw d !! k = None → result_of (Get k) d = Ret dz)
         ∧ (Type_ s = TypeDurationSecond → Raw d !! k = Some VNil →
            result_of (Get k) d = Ret dz)
         ∧ (∀ v, result_of (GetOk k) d = Ret (v, false) →
                 result_of (Get k) d = Ret dz)
         ∧ (∀ v, result_of (GetOk k) d = Ret (v, true) →
                 result_of (Get k) d = Ret v)).
Proof.
  split.
  - intros Hs. by rewrite Get_eq, GetDefaultOrZero_eq, Hs.
  - intros s Hs Hr.
    destruct (DefaultOrZero_recognized s Hr) as (dz & Hdz & Hdef & Hzero).
    exists dz. split_and!; try done.
    + by rewrite GetDefaultOrZero_eq, Hs.
    + intros Hraw. by rewrite Get_eq, Hs, (GetOk_absent k s d Hs Hr Hraw).
    + intros Ht Hraw.
      by rewrite Get_eq, Hs, (GetOk_duration_nil k s d Hs Ht Hraw).
    + intros v H. by rewrite Get_eq, Hs, H.
    + intros v H. by rewrite Get_eq, Hs, H.
Qed.

Lemma Get_default_or_zero_witness :
  Schema empty_request !! "ttl"
  = Some (mkFieldSchema TypeDurationSecond (Some (VInt 30)))
  ∧ Raw empty_request !! "ttl" = None
  ∧ result_of (GetDefaultOrZero "ttl") empty_request = Ret (VInt 30)
  ∧ result_of (Get "ttl") empty_request = Ret (VInt 30).
Proof.
  destruct (Get_default_or_zero empty_request "ttl") as [_ H].
  destruct (H (mkFieldSchema TypeDurationSecond (Some (VInt 30))))
    as (dz & _ & Hdef & _ & HG & HGet & _); [reflexivity | reflexivity |].
  pose proof (Hdef (VInt 30) eq_refl) as ->.
  split_and!; [reflexivity | reflexivity | exact HG |].
  apply HGet. reflexivity.
Defined.

(** With a schema entry and no raw value, [Get] aborts when the entry's type
    is not recognized; and it aborts, rather than fall back on the default,
    when the raw value cannot be decoded. *)
Lemma Get_aborts_with_schema_entry :
  (Schema untyped_absent !! "mode"
   = Some (mkFieldSchema (TypeOther 0) (Some (VInt 5)))
   ∧ Raw untyped_absent !! "mode" = None
   ∧ result_of (Get "mode") untyped_absent
     = Panic (PanicErrorReading "mode"
                (ErrUnknownFieldType (TypeOther 0) "mode"))
   ∧ result_of (Get "mode") untyped_absent ≠ Ret (VInt 5))
  ∧ (Schema bad_count_request !! "count"
     = Some (mkFieldSchema TypeInt (Some (VInt 1)))
     ∧ result_of (Get "count") bad_count_request
       = Panic (PanicErrorReading "count" (ErrLibrary "expected type int"))
     ∧ result_of (Get "count") bad_count_request ≠ Ret (VInt 1)).
Proof.
  split; split_and!; try reflexivity; vm_compute; discriminate.
Qed.

(** ** The name-string type *)

Section NameString.
Context `{C : Collaborators}.
Implicit Types (d : FieldData) (k : string) (s : FieldSchema).

Lemma getPrimitive_name k s d raw str :
  Type_ s = TypeNameString → Raw d !! k = Some raw →
  WeakDecodeString raw = inr str →
  result_of (getPrimitive k s) d
  = if name_ok str then Ret (VString str, true, None)
    else Ret (VNil, true, Some ErrFormatting).
Proof.
  intros Ht Hraw Hd. unfold result_of, getPrimitive, bind, raw_lookup, ret.
  simpl. rewrite Hraw, Ht, Hd, full_match_name_ok.
  by destruct (name_ok str).
Qed.

End NameString.

(** C4.  For the name-string type, once the raw value is weakly decoded to
    a string, the value is accepted if and only if the string starts and
    ends with a word character and every interior character is a word
    character, a hyphen or a period; otherwise the result is the formatting
    error.  "my-secret.v1" is accepted; "-bad", "bad!" and the empty string
    each fail with the formatting error. *)
Theorem name_string_rule `{C : Collaborators}
    (d : FieldData) (k : string) (s : FieldSchema) (raw : value) (str : string) :
  Schema d !! k = Some s → Type_ s = TypeNameString →
  Raw d !! k = Some raw → WeakDecodeString raw = inr str →
  result_of (GetOkErr k) d
  = (if name_ok str then Ret (VString str, true, None)
     else Ret (VNil, true, Some ErrFormatting))
  ∧ (str = "my-secret.v1" →
     result_of (GetOkErr k) d = Ret (VString "my-secret.v1", true, None))
  ∧ (str = "-bad" ∨ str = "bad!" ∨ str = "" →
     result_of (GetOkErr k) d = Ret (VNil, true, Some ErrFormatting)).
Proof.
  intros Hs Ht Hraw Hd.
  assert (Hr : recognized (Type_ s) = true) by by rewrite Ht.
  rewrite (GetOkErr_recognized k s d Hs Hr),
    (getPrimitive_name k s d raw str Ht Hraw Hd).
  split_and!; [done | by intros -> | by intros [->|[->| ->]]].
Qed.

Lemma name_string_rule_witness :
  result_of (GetOkErr "name") (name_request "my-secret.v1")
  = Ret (VString "my-secret.v1", true, None)
  ∧ result_of (GetOkErr "name") (name_request "-bad")
    = Ret (VNil, true, Some ErrFormatting)
  ∧ result_of (GetOkErr "name") (name_request "bad!")
    = Ret (VNil, true, Some ErrFormatting)
  ∧ result_of (GetOkErr "name") (name_request "")
    = Ret (VNil, true, Some ErrFormatting).
Proof.
  pose (sch := mkFieldSchema TypeNameString None).
  split_and!.
  - apply (name_string_rule (name_request "my-secret.v1") "name" sch
             (VString "my-secret.v1") "my-secret.v1"); reflexivity.
  - apply (name_string_rule (name_request "-bad") "name" sch
             (VString "-bad") "-bad"); try reflexivity. by left.
  - apply (name_string_rule (name_request "bad!") "name" sch
             (VString "bad!") "bad!"); try reflexivity. right. by left.
  - apply (name_string_rule (name_request "") "name" sch
             (VString "") ""); try reflexivity. right. by right.
Defined.

(** ** The duration-second type *)

Section DurationSecond.
Context `{C : Collaborators}.
Implicit Types (d : FieldData) (k : string) (s : FieldSchema).

(** The dispatcher on a present duration field, by the kind of the raw
    value. *)
Lemma getPrimitive_duration k s d raw :
  Type_ s = TypeDurationSecond → Raw d !! k = Some raw →
  result_of (getPrimitive k s) d =
  match raw with
  | VNil => Ret (VNil, false, None)
  | VInt n => Ret (VInt n, true, None)
  | VInt32 n | VInt64 n | VUint n | VUint32 n | VUint64 n =>
      Ret (VInt (int_of n), true, None)
  | VFloat32 f | VFloat64 f => Ret (VInt (int_of_float f), true, None)
  | VString str =>
      match ParseDurationSecond str with
      | inl e => Ret (VNil, true, Some e)
      | inr dur => Ret (VInt (int_of_float (Seconds dur)), true, None)
      end
  | VJsonNumber str =>
      match Int64 str with
      | inl e => Ret (VNil, true, Some e)
      | inr n => Ret (VInt (int_of n), true, None)
      end
  | _ => Ret (VNil, false, Some (ErrInvalidInput raw))
  end.
Proof. intros Ht Hraw. run. rewrite Hraw, Ht. cases. Qed.

End DurationSecond.

(** A 64-bit integer converts to itself. *)
Lemma int_of_in_range (n : Z) : min_int ≤ n ≤ max_int → int_of n = n.
Proof.
  unfold min_int, max_int, int_of, wrap. intros Hn.
  destruct (Z.leb_spec 0 n).
  - rewrite Z.mod_small by lia.
    destruct (Z.ltb_spec n (2 ^ (64 - 1))); lia.
  - replace (n mod 2 ^ 64) with (n + 2 ^ 64).
    + destruct (Z.ltb_spec (n + 2 ^ 64) (2 ^ (64 - 1))); lia.
    + apply (Z.mod_unique _ _ (-1)); lia.
Qed.

(** A float whose integer part fits converts to that integer part. *)
Lemma int_of_float_in_range (f : spec_float) (z : Z) :
  float_trunc f = Some z → min_int ≤ z ≤ max_int → int_of_float f = z.
Proof.
  intros Hf Hz. unfold int_of_float. rewrite Hf.
  destruct (Z.leb_spec min_int z), (Z.leb_spec z max_int); simpl; lia.
Qed.

(** ** Seconds as a float, and back *)

Section WholeSeconds.

Lemma digits2_pos_size (p : positive) : digits2_pos p = Pos.size p.
Proof. induction p as [p IH|p IH|]; simpl; by rewrite ?IH. Qed.

(** A positive number of [D] binary digits lies in [2^(D-1), 2^D). *)
Lemma digits2_pos_bounds (p : positive) :
  2 ^ (Z.pos (digits2_pos p) - 1) ≤ Z.pos p < 2 ^ Z.pos (digits2_pos p).
Proof.
  rewrite digits2_pos_size.
  pose proof (Pos.size_gt p) as Hgt. pose proof (Pos.size_le p) as Hle.
  apply Pos2Z.pos_lt_pos in Hgt. apply Pos2Z.pos_le_pos in Hle.
  rewrite Pos2Z.inj_pow in Hgt, Hle.
  change (Z.pos p~0) with (2 * Z.pos p) in Hle.
  replace (Z.pos (Pos.size p)) with (Z.succ (Z.pos (Pos.size p) - 1)) in Hle
    by lia.
  rewrite Z.pow_succ_r in Hle by lia. lia.
Qed.

Lemma iter_xO_value (p d : positive) :
  Z.pos (Pos.iter xO p d) = Z.pos p * 2 ^ Z.pos d.
Proof.
  apply (Pos.iter_ind _ xO p (λ d q, Z.pos q = Z.pos p * 2 ^ Z.pos d)).
  - change (Z.pos p~0) with (2 * Z.pos p). lia.
  - intros d' q IH. change (Z.pos q~0) with (2 * Z.pos q).
    rewrite IH, Pos2Z.inj_succ, Z.pow_succ_r by lia. lia.
Qed.

Lemma iter_xO_digits (p d : positive) :
  Z.pos (digits2_pos (Pos.iter xO p d)) = Z.pos (digits2_pos p) + Z.pos d.
Proof.
  apply (Pos.iter_ind _ xO p
           (λ d q, Z.pos (digits2_pos q) = Z.pos (digits2_pos p) + Z.pos d)).
  - simpl. lia.
  - intros d' q IH. simpl. rewrite Pos2Z.inj_succ, IH. lia.
Qed.

(** Aligning a number of at most 53 digits on the binary64 exponent grid
    pads it to 53 digits. *)
Lemma shl_align_53 (p : positive) :
  Z.pos p < 2 ^ 53 →
  ∃ mz ez, shl_align p 0 (fexp prec64 emax64 (Z.pos (digits2_pos p) + 0))
           = (mz, ez)
           ∧ -52 ≤ ez ≤ 0
           ∧ Z.pos mz = Z.pos p * 2 ^ (- ez)
           ∧ Z.pos (digits2_pos mz) = 53.
Proof.
  intros Hp. pose proof (digits2_pos_bounds p) as [Hlo _].
  assert (HD : Z.pos (digits2_pos p) ≤ 53).
  { destruct (Z.le_gt_cases (Z.pos (digits2_pos p)) 53) as [|Hgt]; [done|].
    assert (2 ^ 53 ≤ 2 ^ (Z.pos (digits2_pos p) - 1))
      by (apply Z.pow_le_mono_r; lia).
    lia. }
  unfold fexp, emin, prec64, emax64, shl_align.
  rewrite Z.add_0_r, Z.max_l by lia.
  rewrite Z.sub_0_r.
  destruct (Z.pos (digits2_pos p) - 53) as [|q|q] eqn:Hq; [|lia|].
  - exists p, 0. split; [done|]. split; [lia|]. split; [simpl; lia | lia].
  - exists (Pos.iter xO p q), (Z.neg q).
    split; [done|]. split; [lia|]. split.
    + rewrite iter_xO_value. by rewrite Pos2Z.opp_neg.
    + rewrite iter_xO_digits. lia.
Qed.

Lemma shr_fexp_53 (mz : positive) (ez : Z) :
  Z.pos (digits2_pos mz) = 53 → -52 ≤ ez →
  shr_fexp prec64 emax64 (Z.pos mz) ez loc_Exact
  = ({| shr_m := Z.pos mz; shr_r := false; shr_s := false |}, ez).
Proof.
  intros HD Hez. unfold shr_fexp, fexp, emin, prec64, emax64, Zdigits2.
  rewrite HD. replace (Z.max (53 + ez - 53) (3 - 1024 - 53) - ez) with 0
    by lia.
  reflexivity.
Qed.

Lemma binary_round_aux_53 (sx : bool) (mz : positive) (ez : Z) :
  Z.pos (digits2_pos mz) = 53 → -52 ≤ ez ≤ 0 →
  binary_round_aux prec64 emax64 sx (Z.pos mz) ez loc_Exact
  = S754_finite sx mz ez.
Proof.
  intros HD Hez. unfold binary_round_aux.
  rewrite (shr_fexp_53 mz ez HD) by lia. simpl.
  rewrite (shr_fexp_53 mz ez HD) by lia. simpl.
  destruct (Z.leb_spec ez (emax64 - prec64)); [done|].
  unfold emax64, prec64 in *. lia.
Qed.

(** Below 2^53 an integer converts to a finite float whose integer part
    is that integer. *)
Lemma binary_round_exact (sx : bool) (p : positive) :
  Z.pos p < 2 ^ 53 →
  ∃ mz ez, binary_round prec64 emax64 sx p 0 = S754_finite sx mz ez
           ∧ float_trunc (S754_finite sx mz ez)
             = Some (if sx then - Z.pos p else Z.pos p).
Proof.
  intros Hp. unfold binary_round.
  destruct (shl_align_53 p Hp) as (mz & ez & -> & Hez & Hmz & HD).
  rewrite (binary_round_aux_53 sx mz ez HD Hez).
  exists mz, ez. split; [done|]. simpl.
  assert (Hv : (if 0 <=? ez then Z.pos mz * 2 ^ ez
                else Z.pos mz / 2 ^ (- ez)) = Z.pos p).
  { destruct (Z.leb_spec 0 ez).
    - replace ez with 0 in * by lia. simpl in Hmz. lia.
    - rewrite Hmz. apply Z.div_mul. apply Z.pow_nonzero; lia. }
  by rewrite Hv.
Qed.

Lemma float_trunc_Seconds_whole (n : Z) :
  - 2 ^ 53 < n < 2 ^ 53 → float_trunc (Seconds (n * Second)) = Some n.
Proof.
  intros Hn. unfold Seconds.
  rewrite Z.quot_mul, Z.rem_mul by done.
  replace (SFdiv prec64 emax64 (float64_of_int 0) (float64_of_int Second))
    with (S754_zero false) by (by vm_compute).
  destruct n as [|p|p]; [done | |]; unfold float64_of_int, binary_normalize.
  - destruct (binary_round_exact false p) as (mz & ez & -> & Ht); [lia|].
    exact Ht.
  - destruct (binary_round_exact true p) as (mz & ez & -> & Ht); [lia|].
    exact Ht.
Qed.

Lemma whole_seconds_exact (n : Z) :
  min_int ≤ n * Second ≤ max_int → int_of_float (Seconds (n * Second)) = n.
Proof.
  unfold min_int, max_int, Second. intros Hn.
  apply int_of_float_in_range.
  - apply float_trunc_Seconds_whole. lia.
  - unfold min_int, max_int. lia.
Qed.

End WholeSeconds.

(** The integer part of a finite float: its magnitude is the float's
    magnitude rounded down, its sign the float's. *)
Lemma float_trunc_finite (sg : bool) (m : positive) (e z : Z) :
  float_trunc (S754_finite sg m e) = Some z →
  z = (if sg then - Z.abs z else Z.abs z)
  ∧ (0 ≤ e → Z.abs z = Z.pos m * 2 ^ e)
  ∧ (e < 0 → Z.abs z * 2 ^ (- e) ≤ Z.pos m < (Z.abs z + 1) * 2 ^ (- e)).
Proof.
  simpl. intros [= <-].
  set (a := if 0 <=? e then Z.pos m * 2 ^ e else Z.pos m / 2 ^ (- e)).
  assert (Ha : 0 ≤ a).
  { unfold a. destruct (Z.leb_spec 0 e).
    - apply Z.mul_nonneg_nonneg; [lia | by apply Z.pow_nonneg].
    - apply Z.div_pos; [lia | apply Z.pow_pos_nonneg; lia]. }
  assert (Habs : Z.abs (if sg then - a else a) = a) by (destruct sg; lia).
  rewrite Habs. split; [by destruct sg|]. unfold a. split.
  - intros He. by destruct (Z.leb_spec 0 e); [|lia].
  - intros He. destruct (Z.leb_spec 0 e); [lia|].
    assert (Hp : 0 < 2 ^ (- e)) by (apply Z.pow_pos_nonneg; lia).
    pose proof (Z.mul_div_le (Z.pos m) (2 ^ (- e)) Hp).
    pose proof (Z.mul_succ_div_gt (Z.pos m) (2 ^ (- e)) Hp).
    lia.
Qed.

(** C3 (as amended).  For the duration-second type: the raw string "2m"
    decodes to the integer 120, the raw integer 90 decodes to 90 and the raw
    string "nonsense" fails with the parser's error.  A nil raw value is
    treated as not present.  A raw value of kind int is returned as it is;
    one of kind int32, int64, uint, uint32 or uint64 is converted to int
    (unchanged when it fits 64 bits).  One of kind float32 or float64
    decodes to an int, which is the float's integer part (its magnitude
    rounded down, its sign kept) whenever that fits 64 bits.  A string is
    handed to the duration parser: the parser's error is the error of the
    field, and a parsed duration (a 64-bit count of nanoseconds) decodes
    to an int, which is [n] when the duration is exactly [n] seconds.  A [json.Number] is read by [Int64]:
    its error is the error of the field and its integer the result.  A
    boolean, a map or a sequence fails with the invalid-input error. *)
Theorem duration_second_rule `{C : Collaborators}
    (d : FieldData) (k : string) (s : FieldSchema) (raw : value) :
  Schema d !! k = Some s → Type_ s = TypeDurationSecond →
  Raw d !! k = Some raw →
  (raw = VNil → result_of (GetOkErr k) d = Ret (VNil, false, None))
  ∧ (∀ n, raw = VInt n → result_of (GetOkErr k) d = Ret (VInt n, true, None))
  ∧ (∀ n, raw = VInt32 n ∨ raw = VInt64 n ∨ raw = VUint n
          ∨ raw = VUint32 n ∨ raw = VUint64 n →
          result_of (GetOkErr k) d = Ret (VInt (int_of n), true, None)
          ∧ (min_int ≤ n ≤ max_int → int_of n = n))
  ∧ (∀ f, raw = VFloat32 f ∨ raw = VFloat64 f →
          ∃ m, result_of (GetOkErr k) d = Ret (VInt m, true, None)
               ∧ (∀ z, float_trunc f = Some z → min_int ≤ z ≤ max_int →
                       m = z))
  ∧ (∀ sg m e z, float_trunc (S754_finite sg m e) = Some z →
       z = (if sg then - Z.abs z else Z.abs z)
       ∧ (0 ≤ e → Z.abs z = Z.pos m * 2 ^ e)
       ∧ (e < 0 →
          Z.abs z * 2 ^ (- e) ≤ Z.pos m < (Z.abs z + 1) * 2 ^ (- e)))
  ∧ (∀ str, raw = VString str →
       (∀ e, ParseDurationSecond str = inl e →
             result_of (GetOkErr k) d = Ret (VNil, true, Some e))
       ∧ (∀ dur, ParseDurationSecond str = inr dur →
            ∃ m, result_of (GetOkErr k) d = Ret (VInt m, true, None)
                 ∧ (∀ n, dur = n * Second → min_int ≤ dur ≤ max_int →
                         m = n)))
  ∧ (∀ str, raw = VJsonNumber str →
       (∀ e, Int64 str = inl e →
             result_of (GetOkErr k) d = Ret (VNil, true, Some e))
       ∧ (∀ n, Int64 str = inr n →
               result_of (GetOkErr k) d = Ret (VInt (int_of n), true, None)
               ∧ (min_int ≤ n ≤ max_int → int_of n = n)))
  ∧ (other_shape raw = true →
     result_of (GetOkErr k) d = Ret (VNil, false, Some (ErrInvalidInput raw)))
  ∧ result_of (@GetOkErr lib "ttl") (ttl_request (VString "2m"))
    = Ret (VInt 120, true, None)
  ∧ result_of (@GetOkErr lib "ttl") (ttl_request (VInt 90))
    = Ret (VInt 90, true, None)
  ∧ result_of (@GetOkErr lib "ttl") (ttl_request (VString "nonsense"))
    = Ret (VNil, true, Some (ErrLibrary "invalid duration")).
Proof.
  intros Hs Ht Hraw.
  assert (Hr : recognized (Type_ s) = true) by by rewrite Ht.
  rewrite (GetOkErr_recognized k s d Hs Hr),
    (getPrimitive_duration k s d raw Ht Hraw).
  split_and!.
  - by intros ->.
  - by intros n ->.
  - intros n H. split; [|apply int_of_in_range].
    by destruct H as [->|[->|[->|[->| ->]]]].
  - intros f H. exists (int_of_float f). split.
    + by destruct H as [->| ->].
    + intros z Hz Hb. by apply int_of_float_in_range.
  - apply float_trunc_finite.
  - intros str ->. split.
    + by intros e ->.
    + intros dur ->. exists (int_of_float (Seconds dur)). split; [done|].
      intros n -> Hb. by apply whole_seconds_exact.
  - intros str ->. split.
    + by intros e ->.
    + intros n ->. split; [done | apply int_of_in_range].
  - by destruct raw.
  - by vm_compute.
  - by vm_compute.
  - by vm_compute.
Qed.

Lemma duration_second_rule_witness :
  Schema (ttl_request (VFloat64 one_and_a_half)) !! "ttl"
  = Some (mkFieldSchema TypeDurationSecond None)
  ∧ Raw (ttl_request (VFloat64 one_and_a_half)) !! "ttl"
    = Some (VFloat64 one_and_a_half)
  ∧ float_trunc one_and_a_half = Some 1
  ∧ ∃ m, result_of (GetOkErr "ttl") (ttl_request (VFloat64 one_and_a_half))
         = Ret (VInt m, true, None)
         ∧ m = 1.
Proof.
  pose (sch := mkFieldSchema TypeDurationSecond None).
  destruct (duration_second_rule (ttl_request (VFloat64 one_and_a_half))
              "ttl" sch (VFloat64 one_and_a_half))
    as (_ & _ & _ & H & _); [reflexivity | reflexivity | reflexivity |].
  destruct (H one_and_a_half) as (m & H1 & H2); [by right|].
  split_and!; [reflexivity | reflexivity | reflexivity |].
  exists m. split; [exact H1|].
  apply H2; [reflexivity | by vm_compute].
Defined.

(** A [json.Number] is none of nil, a number kind or a string, and the
    duration-second type accepts it: the text "5" decodes to 5. *)
Lemma duration_accepts_json_number :
  Raw (ttl_request (VJsonNumber "5")) !! "ttl" = Some (VJsonNumber "5")
  ∧ Schema (ttl_request (VJsonNumber "5")) !! "ttl"
    = Some (mkFieldSchema TypeDurationSecond None)
  ∧ result_of (GetOkErr "ttl") (ttl_request (VJsonNumber "5"))
    = Ret (VInt 5, true, None)
  ∧ ¬ ∃ v ok e, result_of (GetOkErr "ttl") (ttl_request (VJsonNumber "5"))
                = Ret (v, ok, Some e).
Proof.
  split_and!; try reflexivity.
  intros (v & ok & e & H). vm_compute in H. discriminate.
Qed.

(** ** The comma-string-slice type *)

Section Splitting.
Implicit Types (s p : string) (c sep : ascii).
#[local] Arguments Lib.is_space : simpl never.

Lemma split_on_cons sep s : ∃ p rest, Lib.split_on sep s = p :: rest.
Proof.
  destruct s as [|c s]; simpl; [eauto|].
  destruct (Ascii.eqb c sep); [eauto|].
  destruct (Lib.split_on sep s); eauto.
Qed.

Lemma append_cons c s p : String c s +:+ p = String c (s +:+ p).
Proof. reflexivity. Qed.

Lemma append_empty s : EmptyString +:+ s = s.
Proof. reflexivity. Qed.

(** Joining the pieces with the separator gives the text back. *)
Lemma split_on_join sep s : join sep (Lib.split_on sep s) = s.
Proof.
  induction s as [|c s IH]; [done|]. simpl.
  destruct (split_on_cons sep s) as (p & rest & Hp).
  rewrite Hp in *.
  destruct (Ascii.eqb_spec c sep) as [->|Hne].
  - change (join sep (EmptyString :: p :: rest))
      with (String sep (join sep (p :: rest))).
    by rewrite IH.
  - destruct rest as [|q rest].
    + simpl in *. by rewrite IH.
    + change (join sep (String c p :: q :: rest))
        with (String c (join sep (p :: q :: rest))).
      by rewrite IH.
Qed.

(** No piece holds the separator. *)
Lemma split_on_pieces sep s :
  Forall (λ p, occurs sep p = false) (Lib.split_on sep s).
Proof.
  induction s as [|c s IH]; simpl.
  - by repeat constructor.
  - destruct (Ascii.eqb_spec c sep) as [->|Hne].
    + by constructor.
    + destruct (Lib.split_on sep s) as [|p rest].
      * repeat constructor. simpl.
        by rewrite (proj2 (Ascii.eqb_neq c sep) Hne).
      * inversion IH as [|? ? Hp Hrest]; subst. constructor; [|done].
        simpl. by rewrite (proj2 (Ascii.eqb_neq c sep) Hne).
Qed.

Lemma comma_pieces_join s : join "," (Lib.comma_pieces s) = s.
Proof. destruct s; [done|]. apply split_on_join. Qed.

Lemma comma_pieces_no_comma s :
  Forall (λ p, occurs "," p = false) (Lib.comma_pieces s).
Proof. destruct s; [constructor|]. apply split_on_pieces. Qed.

Lemma trim_left_spec s :
  ∃ pre, s = pre +:+ Lib.trim_left s ∧ blank pre = true
         ∧ not_space (first_char (Lib.trim_left s)) = true.
Proof.
  induction s as [|c s (pre & Heq & Hpre & Hhd)]; simpl.
  - by exists EmptyString.
  - destruct (Lib.is_space c) eqn:Hc.
    + exists (String c pre). simpl. rewrite Hc, Hpre, append_cons.
      by rewrite <- Heq.
    + exists EmptyString. simpl. by rewrite Hc, append_empty.
Qed.

Lemma trim_right_spec s :
  ∃ post, s = Lib.trim_right s +:+ post ∧ blank post = true
          ∧ not_space (last_char (Lib.trim_right s)) = true.
Proof.
  induction s as [|c s (post & Heq & Hpost & Hlast)]; simpl.
  - by exists EmptyString.
  - destruct (Lib.trim_right s) as [|a t] eqn:Ht.
    + rewrite append_empty in Heq. subst post.
      destruct (Lib.is_space c) eqn:Hc.
      * exists (String c s). simpl. by rewrite Hc, Hpost, append_empty.
      * exists s. simpl. by rewrite Hc, append_cons, append_empty.
    + exists post. rewrite append_cons, <- Heq. split_and!; [done | done |].
      simpl in *. by destruct (last_char t).
Qed.

(** Trimming on the right keeps the first character. *)
Lemma trim_right_first s :
  not_space (first_char s) = true →
  not_space (first_char (Lib.trim_right s)) = true.
Proof.
  destruct s as [|c s]; [done|]. simpl. intros Hc.
  destruct (Lib.trim_right s); [|done].
  destruct (Lib.is_space c) eqn:E; simpl in *; [done | by rewrite E].
Qed.

(** [TrimSpace] removes a blank prefix and a blank suffix and leaves a
    text that neither starts nor ends with whitespace. *)
Lemma TrimSpace_spec s :
  ∃ pre post, s = pre +:+ Lib.TrimSpace s +:+ post
              ∧ blank pre = true ∧ blank post = true
              ∧ trimmed (Lib.TrimSpace s) = true.
Proof.
  unfold Lib.TrimSpace, trimmed.
  destruct (trim_left_spec s) as (pre & Heq & Hpre & Hhd).
  destruct (trim_right_spec (Lib.trim_left s)) as (post & Heq' & Hpost & Hl).
  exists pre, post. split_and!; [|done|done|].
  - by rewrite <- Heq'.
  - by rewrite (trim_right_first _ Hhd), Hl.
Qed.

End Splitting.

Section CommaStringSlice.
Context `{C : Collaborators}.
Implicit Types (d : FieldData) (k : string) (s : FieldSchema).

Lemma getPrimitive_comma k s d raw Decode l :
  Type_ s = TypeCommaStringSlice → Raw d !! k = Some raw →
  NewDecoder = inr Decode → Decode raw = inr l →
  result_of (getPrimitive k s) d
  = Ret (VStringSlice (TrimStrings l), true, None).
Proof. intros Ht Hraw Hn Hd. run. by rewrite Hraw, Ht, Hn, Hd. Qed.

End CommaStringSlice.

(** C6.  For the comma-string-slice type a single raw string is split on
    commas into a sequence of strings and each element is trimmed of its
    surrounding whitespace.  The pieces are those the commas separate
    (joined with commas they give the string back, none holds a comma);
    each element of the result is its piece without a blank prefix and a
    blank suffix, and neither starts nor ends with whitespace.  The raw
    string "a, b ,c" yields exactly the sequence "a", "b", "c". *)
Theorem comma_string_slice_rule
    (d : FieldData) (k : string) (s : FieldSchema) (str : string) :
  Schema d !! k = Some s → Type_ s = TypeCommaStringSlice →
  Raw d !! k = Some (VString str) →
  result_of (@GetOkErr lib k) d
  = Ret (VStringSlice (map Lib.TrimSpace (Lib.comma_pieces str)), true, None)
  ∧ join "," (Lib.comma_pieces str) = str
  ∧ Forall (λ p, occurs "," p = false) (Lib.comma_pieces str)
  ∧ Forall (λ p, ∃ pre post, p = pre +:+ Lib.TrimSpace p +:+ post
                             ∧ blank pre = true ∧ blank post = true
                             ∧ trimmed (Lib.TrimSpace p) = true)
           (Lib.comma_pieces str)
  ∧ (str = "a, b ,c" →
     result_of (@GetOkErr lib k) d
     = Ret (VStringSlice ["a"; "b"; "c"], true, None)).
Proof.
  intros Hs Ht Hraw.
  assert (Hr : recognized (Type_ s) = true) by by rewrite Ht.
  assert (HG : result_of (@GetOkErr lib k) d
               = Ret (VStringSlice (map Lib.TrimSpace (Lib.comma_pieces str)),
                      true, None)).
  { rewrite (GetOkErr_recognized k s d Hs Hr).
    by rewrite (getPrimitive_comma k s d (VString str) Lib.DecodeComma
                  (Lib.comma_pieces str)). }
  split_and!.
  - exact HG.
  - apply comma_pieces_join.
  - apply comma_pieces_no_comma.
  - apply Forall_forall. intros p _. apply TrimSpace_spec.
  - intros ->. by rewrite HG.
Qed.

Lemma comma_string_slice_rule_witness :
  Schema tags_request !! "tags" = Some (mkFieldSchema TypeCommaStringSlice None)
  ∧ Raw tags_request !! "tags" = Some (VString "a, b ,c")
  ∧ result_of (GetOkErr "tags") tags_request
    = Ret (VStringSlice ["a"; "b"; "c"], true, None).
Proof.
  split_and!; [reflexivity | reflexivity |].
  apply (comma_string_slice_rule tags_request "tags"
           (mkFieldSchema TypeCommaStringSlice None) "a, b ,c"); reflexivity.
Defined.

(** * Further properties of the decoder *)

(** ** Validation and the accessors *)

Section Validated.
Context `{C : Collaborators}.
Implicit Types (d : FieldData) (k : string) (s : FieldSchema).

Lemma coerces_GetOkErr d k s :
  Schema d !! k = Some s → coerces d k s = true →
  ∃ v ok, result_of (GetOkErr k) d = Ret (v, ok, None).
Proof.
  intros Hs Hc. unfold coerces in Hc. apply andb_true_iff in Hc as [Hr Hc].
  rewrite (GetOkErr_recognized k s d Hs Hr).
  destruct (result_of (getPrimitive k s) d) as [[[v ok] [e|]]|p]; eauto; done.
Qed.

(** Without an error, [GetOk] hands on what [GetOkErr] decoded. *)
Lemma GetOk_of_GetOkErr d k s v ok :
  Schema d !! k = Some s → result_of (GetOkErr k) d = Ret (v, ok, None) →
  result_of (GetOk k) d = Ret (v, ok).
Proof. intros Hs HG. by rewrite GetOk_eq, Hs, HG. Qed.

Lemma Get_of_GetOkErr d k s v ok :
  Schema d !! k = Some s → result_of (GetOkErr k) d = Ret (v, ok, None) →
  result_of (Get k) d = if ok then Ret v else DefaultOrZero s.
Proof.
  intros Hs HG. rewrite Get_eq, Hs, (GetOk_of_GetOkErr d k s v ok Hs HG).
  by destruct ok.
Qed.

(** [GetOkErr] reports no error only for a recognized type. *)
Lemma GetOkErr_no_error_recognized d k s v ok :
  Schema d !! k = Some s → result_of (GetOkErr k) d = Ret (v, ok, None) →
  recognized (Type_ s) = true.
Proof.
  intros Hs HG. destruct (recognized (Type_ s)) eqn:Hr; [done|].
  by rewrite (GetOkErr_unrecognized k s d Hs Hr) in HG.
Qed.
End Validated.

(** X1.  What [Validate] is for: once it has returned success, reading any
    key the schema knows that is present in the raw record, or whose type
    is recognized, cannot fail.  [GetOkErr] returns no error, [GetOk]
    returns the same value and flag without a panic, and [Get] returns the
    decoded value when the field is present and the default-or-zero value
    [dz], which exists, otherwise. *)
Theorem validated_accessors `{C : Collaborators}
    (d : FieldData) (its : list (string * value)) (k : string) (s : FieldSchema) :
  iteration d its → result_of (Validate its) d = Ret None →
  Schema d !! k = Some s →
  is_Some (Raw d !! k) ∨ recognized (Type_ s) = true →
  ∃ v ok dz, result_of (GetOkErr k) d = Ret (v, ok, None)
             ∧ result_of (GetOk k) d = Ret (v, ok)
             ∧ DefaultOrZero s = Ret dz
             ∧ result_of (Get k) d = Ret (if ok then v else dz).
Proof.
  intros Hit HV Hs Hk.
  assert (HG : ∃ v ok, result_of (GetOkErr k) d = Ret (v, ok, None)).
  { destruct (Raw d !! k) as [raw|] eqn:Hraw.
    - apply (coerces_GetOkErr d k s Hs).
      by apply (proj1 (Validate_success d its Hit) HV k raw s).
    - destruct Hk as [[? ?]|Hr]; [done|].
      rewrite (GetOkErr_recognized k s d Hs Hr), (getPrimitive_absent k s d Hraw).
      eauto. }
  destruct HG as (v & ok & HG).
  pose proof (GetOkErr_no_error_recognized d k s v ok Hs HG) as Hr.
  destruct (DefaultOrZero_recognized s Hr) as (dz & Hdz & _).
  exists v, ok, dz. split_and!; [done | | done |].
  - by apply (GetOk_of_GetOkErr d k s).
  - rewrite (Get_of_GetOkErr d k s v ok Hs HG), Hdz. by destruct ok.
Qed.

Section ValidateMore.
Context `{C : Collaborators}.
Implicit Types (d : FieldData) (k : string) (s : FieldSchema).

Lemma Validate_range_app_error pre rest d e :
  result_of (Validate_range pre) d = Ret (Some e) →
  result_of (Validate_range (pre ++ rest)) d = Ret (Some e).
Proof.
  induction pre as [|[k v] pre IH]; [done|].
  simpl app. rewrite !Validate_range_cons.
  destruct (Schema d !! k) as [s|]; [|done].
  destruct (recognized (Type_ s)); [|done].
  by destruct (result_of (getPrimitive k s) d) as [[[x ok] [e'|]]|p].
Qed.

Lemma failing_entry_cons d kv its e :
  failing_entry d its e → failing_entry d (kv :: its) e.
Proof.
  intros (k & v & s & Hin & H). exists k, v, s. split; [by right | done].
Qed.

Lemma Validate_range_error its d e :
  result_of (Validate_range its) d = Ret (Some e) → failing_entry d its e.
Proof.
  induction its as [|[k v] rest IH]; [done|].
  rewrite Validate_range_cons. intros H.
  destruct (Schema d !! k) as [s|] eqn:Hs;
    [|by apply failing_entry_cons, IH].
  destruct (recognized (Type_ s)) eqn:Hr.
  - destruct (result_of (getPrimitive k s) d) as [[[x ok] [e'|]]|p] eqn:HP;
      [| by apply failing_entry_cons, IH | done].
    injection H as <-. exists k, v, s. split_and!; [by left | done |].
    right. by exists x, ok, e'.
  - injection H as <-. exists k, v, s. split_and!; [by left | done |].
    by left.
Qed.
End ValidateMore.

(** X2.  [Validate] stops at the first failing entry: visiting [its1] and
    then [its2] gives the error of [its1] if it has one, whatever [its2]
    holds, and the result of [its2] otherwise. *)
Theorem Validate_first_failure `{C : Collaborators}
    (its1 its2 : list (string * value)) (d : FieldData) :
  result_of (Validate (its1 ++ its2)) d =
  match result_of (Validate its1) d with
  | Ret None => result_of (Validate its2) d
  | r => r
  end.
Proof.
  unfold Validate.
  destruct (Validate_range_returns its1 d) as [[e|] H]; rewrite H.
  - by apply Validate_range_app_error.
  - by apply Validate_range_app.
Qed.

(** X3.  Every error of [Validate] is about the request: it comes from a
    key that is in the raw record and in the schema, and it is either the
    unknown-type error for that key's unrecognized schema type, or the
    conversion error carrying that key, its raw value and the reason its
    coercion failed. *)
Theorem Validate_error_sound `{C : Collaborators}
    (d : FieldData) (its : list (string * value)) (e : error) :
  iteration d its → result_of (Validate its) d = Ret (Some e) →
  ∃ k v s, Raw d !! k = Some v ∧ Schema d !! k = Some s
    ∧ ((recognized (Type_ s) = false ∧ e = ErrUnknownFieldType (Type_ s) k)
       ∨ (∃ e', recognized (Type_ s) = true ∧ coercion_fails (Type_ s) v e'
                ∧ e = ErrConverting v k e')).
Proof.
  intros Hit H. destruct (Validate_range_error its d e H)
    as (k & v & s & Hin & Hs & Hcase).
  apply (elem_of_iteration d its k v Hit) in Hin.
  exists k, v, s. split_and!; [done | done |].
  destruct Hcase as [?|(x & ok & e' & Hr & HP & ->)]; [by left|].
  right. exists e'. split_and!; [done | | done].
  by apply (getPrimitive_error_fails k s d v x ok).
Qed.

Section Monotone.
Context `{C : Collaborators}.

(** An entry coerces alike in a record and in any record that extends
    it. *)
Lemma coerces_weaken (d d' : FieldData) (k : string) (v : value)
    (s : FieldSchema) :
  Raw d' ⊆ Raw d → Raw d' !! k = Some v →
  Raw d !! k = Some v ∧ coerces d' k s = coerces d k s.
Proof.
  intros Hsub Hv.
  assert (Hv' : Raw d !! k = Some v) by by eapply lookup_weaken.
  split; [done|]. apply coerces_raw. by rewrite Hv, Hv'.
Qed.

End Monotone.

(** X4.  Validation is monotone: if a raw record validates, so does every
    record made of some of its entries, under the same schema.  (The empty
    record is the least case.) *)
Theorem Validate_submap `{C : Collaborators}
    (d d' : FieldData) (its its' : list (string * value)) :
  iteration d its → iteration d' its' →
  Schema d' = Schema d → Raw d' ⊆ Raw d →
  result_of (Validate its) d = Ret None →
  result_of (Validate its') d' = Ret None.
Proof.
  intros Hit Hit' HS Hsub HV.
  apply (Validate_success d' its' Hit'). intros k v s Hv Hs.
  destruct (coerces_weaken d d' k v s Hsub Hv) as [Hv' ->].
  apply (proj1 (Validate_success d its Hit) HV k v); [done|].
  by rewrite <- HS.
Qed.

(** X5.  Validation of a record made of two disjoint parts: under one
    schema, the merged record validates if and only if each part does. *)
Theorem Validate_merge `{C : Collaborators}
    (d d1 d2 : FieldData) (its its1 its2 : list (string * value)) :
  iteration d its → iteration d1 its1 → iteration d2 its2 →
  Schema d1 = Schema d → Schema d2 = Schema d →
  Raw d1 ##ₘ Raw d2 → Raw d = Raw d1 ∪ Raw d2 →
  result_of (Validate its) d = Ret None ↔
  result_of (Validate its1) d1 = Ret None
  ∧ result_of (Validate its2) d2 = Ret None.
Proof.
  intros Hit Hit1 Hit2 HS1 HS2 Hdisj HU. split.
  - intros HV.
    assert (H1 : Raw d1 ⊆ Raw d) by (rewrite HU; by apply map_union_subseteq_l).
    assert (H2 : Raw d2 ⊆ Raw d) by (rewrite HU; by apply map_union_subseteq_r).
    split.
    + apply (Validate_success d1 its1 Hit1). intros k v s Hv Hs.
      destruct (coerces_weaken d d1 k v s H1 Hv) as [Hv' ->].
      apply (proj1 (Validate_success d its Hit) HV k v); [done|].
      by rewrite <- HS1.
    + apply (Validate_success d2 its2 Hit2). intros k v s Hv Hs.
      destruct (coerces_weaken d d2 k v s H2 Hv) as [Hv' ->].
      apply (proj1 (Validate_success d its Hit) HV k v); [done|].
      by rewrite <- HS2.
  - intros [HV1 HV2]. apply (Validate_success d its Hit). intros k v s Hv Hs.
    rewrite HU in Hv. apply lookup_union_Some in Hv as [Hv|Hv]; [| |done].
    + rewrite (coerces_raw k s d1 d).
      * apply (proj1 (Validate_success d1 its1 Hit1) HV1 k v); [done|].
        by rewrite HS1.
      * rewrite HU, Hv. by apply lookup_union_Some_l.
    + rewrite (coerces_raw k s d2 d).
      * apply (proj1 (Validate_success d2 its2 Hit2) HV2 k v); [done|].
        by rewrite HS2.
      * rewrite HU, Hv. by apply lookup_union_Some_r.
Qed.

Section Order.
Context `{C : Collaborators}.
Implicit Types (d : FieldData) (k : string) (s : FieldSchema).

Lemma failing_entry_key d its e :
  iteration d its → failing_entry d its e → ∃ k, fails_with d k e.
Proof.
  intros Hit (k & v & s & Hin & Hs & Hcase).
  apply (elem_of_iteration d its k v Hit) in Hin. by exists k, v, s.
Qed.

Lemma fails_with_fails d k e : fails_with d k e → fails d k.
Proof.
  intros (v & s & Hv & Hs & Hcase). exists v, s.
  split_and!; [done | done |]. unfold coerces.
  destruct Hcase as [[-> _]|(x & ok & e' & -> & -> & _)]; done.
Qed.

Lemma fails_with_unique d k e e' :
  fails_with d k e → fails_with d k e' → e = e'.
Proof.
  intros (v & s & Hv & Hs & Hcase) (v' & s' & Hv' & Hs' & Hcase').
  rewrite Hv in Hv'. injection Hv' as <-.
  rewrite Hs in Hs'. injection Hs' as <-.
  destruct Hcase as [[Hr ->]|(x & ok & e1 & Hr & HP & ->)];
    destruct Hcase' as [[Hr' ->]|(x' & ok' & e2 & Hr' & HP' & ->)];
    try congruence.
Qed.
End Order.

(** X14.  Go's map order does not change the verdict: two visits of the
    same raw record both succeed or both fail.  When at most one key of the
    request fails, they also return the same error; only with several
    failing keys does the reported error depend on the order. *)
Theorem Validate_order `{C : Collaborators}
    (d : FieldData) (its its' : list (string * value)) :
  iteration d its → iteration d its' →
  (result_of (Validate its) d = Ret None ↔
   result_of (Validate its') d = Ret None)
  ∧ ((∀ k k', fails d k → fails d k' → k = k') →
     result_of (Validate its) d = result_of (Validate its') d).
Proof.
  intros Hit Hit'.
  assert (Hiff : result_of (Validate its) d = Ret None ↔
                 result_of (Validate its') d = Ret None)
    by by rewrite (Validate_success d its Hit), (Validate_success d its' Hit').
  split; [done|]. intros Huniq.
  destruct (Validate_range_returns its d) as [[e|] He];
    destruct (Validate_range_returns its' d) as [[e'|] He'].
  - unfold Validate. rewrite He, He'.
    apply Validate_range_error in He, He'.
    destruct (failing_entry_key d its e Hit He) as [k Hk].
    destruct (failing_entry_key d its' e' Hit' He') as [k' Hk'].
    pose proof (Huniq k k' (fails_with_fails d k e Hk)
                  (fails_with_fails d k' e' Hk')) as <-.
    by rewrite (fails_with_unique d k e e' Hk Hk').
  - apply Hiff in He'. unfold Validate in *. congruence.
  - apply Hiff in He. unfold Validate in *. congruence.
  - unfold Validate. by rewrite He, He'.
Qed.

(** ** More on the accessors *)

Section AccessorsMore.
Context `{C : Collaborators}.
Implicit Types (d : FieldData) (k : string) (s : FieldSchema).

Lemma getPrimitive_kind k s d v :
  result_of (getPrimitive k s) d = Ret (v, true, None) →
  has_kind (Type_ s) v = true.
Proof. intros H. run. cases. Qed.

Lemma getPrimitive_name_ok k s d v :
  Type_ s = TypeNameString →
  result_of (getPrimitive k s) d = Ret (v, true, None) →
  ∃ str, v = VString str ∧ name_ok str = true.
Proof.
  intros Ht H. unfold result_of, getPrimitive, bind, raw_lookup, ret in H.
  simpl in H. rewrite Ht in H.
  destruct (Raw d !! k) as [raw|]; [|done].
  destruct (WeakDecodeString raw) as [e|str]; [done|].
  simpl in H. rewrite full_match_name_ok in H.
  destruct (name_ok str) eqn:Hn; simpl in H; [|done].
  injection H as <-. eauto.
Qed.

Lemma getPrimitive_not_present k s d raw :
  Raw d !! k = Some raw →
  result_of (getPrimitive k s) d = Ret (VNil, false, None) →
  Type_ s = TypeDurationSecond ∧ raw = VNil.
Proof. intros Hraw H. run. rewrite Hraw in H. cases. Qed.

Lemma getPrimitive_flag_false k s d v e :
  result_of (getPrimitive k s) d = Ret (v, false, Some e) →
  Type_ s = TypeDurationSecond ∨ Type_ s = TypeCommaStringSlice.
Proof. intros H. run. cases. Qed.

Lemma GetOkErr_local k d d' :
  Raw d' !! k = Raw d !! k → Schema d' !! k = Schema d !! k →
  result_of (GetOkErr k) d' = result_of (GetOkErr k) d.
Proof.
  intros HR HS.
  destruct (Schema d !! k) as [s|] eqn:Hs.
  - destruct (recognized (Type_ s)) eqn:Hr.
    + rewrite (GetOkErr_recognized k s d' HS Hr),
        (GetOkErr_recognized k s d Hs Hr).
      by apply getPrimitive_raw.
    + by rewrite (GetOkErr_unrecognized k s d' HS Hr),
        (GetOkErr_unrecognized k s d Hs Hr).
  - by rewrite (GetOkErr_unknown k d' HS), (GetOkErr_unknown k d Hs).
Qed.
End AccessorsMore.

(** X6.  Type-safe access: a value reported present, by [GetOkErr] without
    an error or by [GetOk], has the Go type the schema type stands for
    (bool, int, string, map, slice, string slice; int for a duration), and
    a name-string value always satisfies the name rule. *)
Theorem present_value_kind `{C : Collaborators}
    (d : FieldData) (k : string) (s : FieldSchema) (v : value) :
  Schema d !! k = Some s →
  result_of (GetOkErr k) d = Ret (v, true, None)
  ∨ result_of (GetOk k) d = Ret (v, true) →
  has_kind (Type_ s) v = true
  ∧ (Type_ s = TypeNameString → ∃ str, v = VString str ∧ name_ok str = true).
Proof.
  intros Hs H.
  assert (HG : result_of (GetOkErr k) d = Ret (v, true, None)).
  { destruct H as [H|H]; [done|]. by apply GetOk_present in H as (_ & _ & H). }
  pose proof (GetOkErr_value k s d v true Hs HG) as HP. split.
  - by apply (getPrimitive_kind k s d).
  - intros Ht. by apply (getPrimitive_name_ok k s d).
Qed.

(** X7.  For a key whose schema type is recognized, [GetOkErr] answers
    [(nil, false, nil)] exactly when the key is absent from the raw record
    or is a duration-second field holding nil.  A present flag of true
    means the key is in the raw record; an error with the flag false only
    comes from the duration-second and comma-string-slice types, for a key
    that is in the raw record. *)
Theorem not_present_iff `{C : Collaborators}
    (d : FieldData) (k : string) (s : FieldSchema) :
  Schema d !! k = Some s → recognized (Type_ s) = true →
  (result_of (GetOkErr k) d = Ret (VNil, false, None) ↔
   Raw d !! k = None
   ∨ (Type_ s = TypeDurationSecond ∧ Raw d !! k = Some VNil))
  ∧ (∀ v e, result_of (GetOkErr k) d = Ret (v, true, e) →
            is_Some (Raw d !! k))
  ∧ (∀ v e, result_of (GetOkErr k) d = Ret (v, false, Some e) →
            is_Some (Raw d !! k)
            ∧ (Type_ s = TypeDurationSecond ∨ Type_ s = TypeCommaStringSlice)).
Proof.
  intros Hs Hr. rewrite (GetOkErr_recognized k s d Hs Hr). split_and!.
  - split.
    + intros H. destruct (Raw d !! k) as [raw|] eqn:Hraw; [|by left].
      right. destruct (getPrimitive_not_present k s d raw Hraw H) as [? ->].
      done.
    + intros [Hraw|[Ht Hraw]].
      * by apply getPrimitive_absent.
      * by apply getPrimitive_duration_nil.
  - intros v e. apply getPrimitive_present_raw.
  - intros v e H. split; [|by apply (getPrimitive_flag_false k s d v e)].
    destruct (Raw d !! k) eqn:Hraw; [eauto|].
    by rewrite (getPrimitive_absent k s d Hraw) in H.
Qed.

(** X8.  When the convenience accessors abort.  [GetOk] returns unless the
    key is in the schema and [GetOkErr] reports an error, and then it
    panics with that key and error; [Get] returns exactly when the key is
    in the schema and [GetOkErr] reports no error, and panics with
    not-in-schema or with the error otherwise; [GetDefaultOrZero] panics
    with not-in-schema when the key is not in the schema, and returns when
    the key is in the schema with a recognized type. *)
Theorem accessors_abort_iff `{C : Collaborators} (d : FieldData) (k : string) :
  ((∃ r, result_of (GetOk k) d = Ret r) ↔
   Schema d !! k = None
   ∨ ∃ v ok, result_of (GetOkErr k) d = Ret (v, ok, None))
  ∧ ((∃ v, result_of (Get k) d = Ret v) ↔
     is_Some (Schema d !! k)
     ∧ ∃ v ok, result_of (GetOkErr k) d = Ret (v, ok, None))
  ∧ (∀ p, result_of (GetOk k) d = Panic p ↔
          is_Some (Schema d !! k)
          ∧ ∃ v ok e, result_of (GetOkErr k) d = Ret (v, ok, Some e)
                      ∧ p = PanicErrorReading k e)
  ∧ (∀ p, result_of (Get k) d = Panic p ↔
          (Schema d !! k = None ∧ p = PanicNotInSchema k)
          ∨ (is_Some (Schema d !! k)
             ∧ ∃ v ok e, result_of (GetOkErr k) d = Ret (v, ok, Some e)
                         ∧ p = PanicErrorReading k e))
  ∧ (Schema d !! k = None →
     result_of (GetDefaultOrZero k) d = Panic (PanicNotInSchema k))
  ∧ (∀ s, Schema d !! k = Some s → recognized (Type_ s) = true →
          ∃ v, result_of (GetDefaultOrZero k) d = Ret v).
Proof.
  rewrite Get_eq, GetDefaultOrZero_eq, GetOk_eq.
  destruct (Schema d !! k) as [s|] eqn:Hs.
  - destruct (GetOkErr_returns k d) as [[[v ok] [e|]] HG]; rewrite HG.
    + split_and!.
      * split; [by intros [? ?]|]. intros [?|(? & ? & ?)]; done.
      * split; [by intros [? ?]|]. intros [_ (? & ? & ?)]; done.
      * intros p. split.
        -- intros [= <-]. split; [eauto|]. by exists v, ok, e.
        -- intros [_ (? & ? & ? & [= <- <- <-] & ->)]. done.
      * intros p. split.
        -- intros [= <-]. right. split; [eauto|]. by exists v, ok, e.
        -- intros [[? ?]|[_ (? & ? & ? & [= <- <- <-] & ->)]]; done.
      * done.
      * intros s' [= <-] Hr.
        destruct (DefaultOrZero_recognized s Hr) as (dz & -> & _). eauto.
    + pose proof (GetOkErr_no_error_recognized d k s v ok Hs HG) as Hr.
      destruct (DefaultOrZero_recognized s Hr) as (dz & Hdz & _).
      rewrite Hdz. split_and!.
      * split; [|eauto]. intros _. right. eauto.
      * split; [|intros _; destruct ok; eauto]. intros _. split; eauto.
      * intros p. split; [done|]. intros [_ (? & ? & ? & ? & _)]. done.
      * intros p. split; [by destruct ok|].
        intros [[? ?]|[_ (? & ? & ? & ? & _)]]; done.
      * done.
      * eauto.
  - split_and!.
    + split; [|eauto]. intros _. by left.
    + split; [by intros [? ?]|]. by intros [[? ?] _].
    + intros p. split; [done|]. by intros [[? ?] _].
    + intros p. split.
      * intros [= <-]. by left.
      * intros [[_ ->]|[[? ?] _]]; done.
    + done.
    + done.
Qed.

(** X9.  Fields are decoded independently: the result of each accessor for
    a key depends only on that key's entries in the raw record and in the
    schema, so adding, changing or removing other keys changes nothing. *)
Theorem accessors_local `{C : Collaborators} (d d' : FieldData) (k : string) :
  Raw d' !! k = Raw d !! k → Schema d' !! k = Schema d !! k →
  result_of (GetOkErr k) d' = result_of (GetOkErr k) d
  ∧ result_of (GetOk k) d' = result_of (GetOk k) d
  ∧ result_of (Get k) d' = result_of (Get k) d
  ∧ result_of (GetDefaultOrZero k) d' = result_of (GetDefaultOrZero k) d.
Proof.
  intros HR HS.
  pose proof (GetOkErr_local k d d' HR HS) as HG.
  assert (HGO : result_of (GetOk k) d' = result_of (GetOk k) d)
    by by rewrite !GetOk_eq, HS, HG.
  split_and!; [done | done | |].
  - by rewrite !Get_eq, HS, HGO.
  - by rewrite !GetDefaultOrZero_eq, HS.
Qed.

(** X16.  [Get] is type-safe as soon as the schema's default is: if the
    default-or-zero value of a key has the Go type its schema type stands
    for, then so does whatever [Get] returns for that key. *)
Theorem Get_kind `{C : Collaborators}
    (d : FieldData) (k : string) (s : FieldSchema) (dz v : value) :
  Schema d !! k = Some s →
  DefaultOrZero s = Ret dz → has_kind (Type_ s) dz = true →
  result_of (Get k) d = Ret v → has_kind (Type_ s) v = true.
Proof.
  intros Hs Hdz Hd. rewrite Get_eq, Hs, GetOk_eq, Hs, Hdz.
  destruct (GetOkErr_returns k d) as [[[x ok] [e|]] HG]; rewrite HG; [done|].
  pose proof (GetOkErr_value k s d x ok Hs HG) as HP.
  destruct ok; simpl; intros [= <-]; [|done].
  by apply (getPrimitive_kind k s d x).
Qed.

(** ** More on durations *)

Lemma int_of_range (n : Z) : min_int ≤ int_of n ≤ max_int.
Proof.
  unfold int_of, wrap, min_int, max_int.
  pose proof (Z.mod_pos_bound n (2 ^ 64) eq_refl) as H.
  destruct (Z.ltb_spec (n mod 2 ^ 64) (2 ^ (64 - 1))); lia.
Qed.

Lemma int_of_unsigned_high (n : Z) :
  max_int < n ≤ 2 ^ 64 - 1 → int_of n = n - 2 ^ 64.
Proof.
  unfold int_of, wrap, max_int. intros H.
  rewrite Z.mod_small by lia.
  destruct (Z.ltb_spec n (2 ^ (64 - 1))); lia.
Qed.

Lemma well_formed_converted (raw : value) (n : Z) :
  well_formed raw = true → converted_integer raw = Some n →
  min_int ≤ n ≤ 2 ^ 64 - 1.
Proof.
  unfold min_int, max_int.
  destruct raw; simpl; try discriminate; intros Hw [= <-];
    unfold in_range, min_int, max_int in Hw;
    apply andb_true_iff in Hw as [H1 H2];
    apply Z.leb_le in H1; apply Z.leb_le in H2; lia.
Qed.

(** X10.  A duration field holding an integer of a kind the switch
    converts always decodes to a 64-bit int: the same number when it fits,
    and, for an unsigned value above the largest int, that value minus
    2^64, a negative number. *)
Theorem duration_integer_wraps `{C : Collaborators}
    (d : FieldData) (k : string) (s : FieldSchema) (raw : value) (n : Z) :
  Schema d !! k = Some s → Type_ s = TypeDurationSecond →
  Raw d !! k = Some raw → well_formed raw = true →
  converted_integer raw = Some n →
  ∃ m, result_of (GetOkErr k) d = Ret (VInt m, true, None)
       ∧ min_int ≤ m ≤ max_int
       ∧ (n ≤ max_int → m = n)
       ∧ (max_int < n → m = n - 2 ^ 64 ∧ m < 0).
Proof.
  intros Hs Ht Hraw Hw Hn.
  assert (Hr : recognized (Type_ s) = true) by by rewrite Ht.
  pose proof (well_formed_converted raw n Hw Hn) as Hb.
  rewrite (GetOkErr_recognized k s d Hs Hr),
    (getPrimitive_duration k s d raw Ht Hraw).
  assert (Hint : min_int ≤ n ≤ max_int → int_of n = n)
    by apply int_of_in_range.
  assert (Hhigh : max_int < n → int_of n = n - 2 ^ 64 ∧ int_of n < 0).
  { intros H. rewrite int_of_unsigned_high by lia. unfold max_int in *. lia. }
  assert (Hconv : ∃ m, Ret (VInt (int_of n), true, @None error)
                       = Ret (VInt m, true, None)
                       ∧ min_int ≤ m ≤ max_int
                       ∧ (n ≤ max_int → m = n)
                       ∧ (max_int < n → m = n - 2 ^ 64 ∧ m < 0)).
  { exists (int_of n). split; [done|]. split; [apply int_of_range|].
    split; [|done]. intros H. apply Hint. lia. }
  destruct raw; simpl in Hn; try discriminate; injection Hn as ->;
    try exact Hconv.
  (* [case int]: the value is returned as it is *)
  exists n. simpl in Hw. unfold in_range in Hw.
  apply andb_true_iff in Hw as [H1 H2].
  apply Z.leb_le in H1. apply Z.leb_le in H2.
  split; [done|]. split; [lia|]. split; [done|]. lia.
Qed.

(** X11.  Decoded durations are in normal form: putting the decoded value
    of a duration-second field back into the raw record and decoding again
    gives the same value. *)
Theorem duration_redecode `{C : Collaborators}
    (d : FieldData) (k : string) (s : FieldSchema) (v : value) :
  Schema d !! k = Some s → Type_ s = TypeDurationSecond →
  result_of (GetOkErr k) d = Ret (v, true, None) →
  result_of (GetOkErr k) (with_raw k v d) = Ret (v, true, None).
Proof.
  intros Hs Ht HG.
  assert (Hr : recognized (Type_ s) = true) by by rewrite Ht.
  pose proof (GetOkErr_value k s d v true Hs HG) as HP.
  pose proof (getPrimitive_kind k s d v HP) as Hk.
  rewrite Ht in Hk. destruct v; try discriminate.
  rewrite (GetOkErr_recognized k s (with_raw k (VInt n) d) Hs Hr).
  rewrite (getPrimitive_duration k s _ (VInt n) Ht); [done|].
  unfold with_raw. simpl. apply lookup_insert_eq.
Qed.

(** X12.  A duration string that the parser reads as a whole number [n] of
    seconds decodes to exactly [n]: the passage through [Seconds], a
    binary64 float, and back to int loses nothing. *)
Theorem duration_whole_seconds `{C : Collaborators}
    (d : FieldData) (k : string) (s : FieldSchema) (str : string) (n : Z) :
  Schema d !! k = Some s → Type_ s = TypeDurationSecond →
  Raw d !! k = Some (VString str) →
  ParseDurationSecond str = inr (n * Second) →
  min_int ≤ n * Second ≤ max_int →
  result_of (GetOkErr k) d = Ret (VInt n, true, None).
Proof.
  intros Hs Ht Hraw Hp Hn.
  assert (Hr : recognized (Type_ s) = true) by by rewrite Ht.
  rewrite (GetOkErr_recognized k s d Hs Hr),
    (getPrimitive_duration k s d _ Ht Hraw), Hp.
  by rewrite whole_seconds_exact.
Qed.

Lemma float_trunc_float64_of_int (n : Z) :
  - 2 ^ 53 < n < 2 ^ 53 → float_trunc (float64_of_int n) = Some n.
Proof.
  intros Hn.
  destruct n as [|p|p]; [done | |]; unfold float64_of_int, binary_normalize.
  - destruct (binary_round_exact false p) as (mz & ez & -> & Ht); [lia|].
    exact Ht.
  - destruct (binary_round_exact true p) as (mz & ez & -> & Ht); [lia|].
    exact Ht.
Qed.

(** X13.  A duration field holding a float64 that is an integer below 2^53
    in magnitude (what a JSON number decoded without [UseNumber] is) decodes
    to exactly that integer. *)
Theorem duration_float_integer `{C : Collaborators}
    (d : FieldData) (k : string) (s : FieldSchema) (n : Z) :
  Schema d !! k = Some s → Type_ s = TypeDurationSecond →
  Raw d !! k = Some (VFloat64 (float64_of_int n)) →
  - 2 ^ 53 < n < 2 ^ 53 →
  result_of (GetOkErr k) d = Ret (VInt n, true, None).
Proof.
  intros Hs Ht Hraw Hn.
  assert (Hr : recognized (Type_ s) = true) by by rewrite Ht.
  rewrite (GetOkErr_recognized k s d Hs Hr),
    (getPrimitive_duration k s d _ Ht Hraw).
  rewrite (int_of_float_in_range _ n); [done | |].
  - by apply float_trunc_float64_of_int.
  - unfold min_int, max_int. lia.
Qed.

(** ** More on names *)

Section NameJoin.
Implicit Types (s a b sep : string) (w : list ascii) (c : ascii).

Lemma word_char_name_char c : word_char c = true → name_char c = true.
Proof. unfold name_char. by intros ->. Qed.

Lemma list_ascii_of_string_app s1 s2 :
  list_ascii_of_string (s1 +:+ s2)
  = list_ascii_of_string s1 ++ list_ascii_of_string s2.
Proof.
  induction s1 as [|c s1 IH]; [done|].
  change (String c s1 +:+ s2) with (String c (s1 +:+ s2)).
  simpl. by rewrite IH.
Qed.

(** The name rule, read from the first character on. *)
Lemma name_ok_chars s :
  name_ok s = true ↔
  ∃ c w, list_ascii_of_string s = c :: w ∧ word_char c = true
         ∧ forallb name_char w = true
         ∧ match last w with Some l => word_char l | None => true end = true.
Proof.
  unfold name_ok, starts_with_word, ends_with_word, interior.
  destruct (list_ascii_of_string s) as [|c w]; simpl.
  { split; [done|]. by intros (? & ? & ? & _). }
  destruct w as [|l w _] using rev_ind.
  - simpl. rewrite !andb_true_r, andb_diag. split.
    + intros Hc. by exists c, [].
    + by intros (? & ? & [= <- <-] & ? & _).
  - change (c :: w ++ [l]) with ((c :: w) ++ [l]).
    rewrite last_snoc, removelast_last, !andb_true_iff. split.
    + intros [[Hc Hl] Hw]. exists c, (w ++ [l]).
      rewrite last_snoc, forallb_app, Hw. simpl.
      by rewrite (word_char_name_char l Hl).
    + intros (c' & w' & [= <- <-] & Hc & Hw & Hl).
      rewrite last_snoc in Hl. rewrite forallb_app in Hw.
      apply andb_true_iff in Hw as [Hw _]. done.
Qed.

End NameJoin.

Lemma MatchString_name_join (a sep b : string) :
  name_ok a = true → name_ok b = true → name_chars sep = true →
  MatchString_name (a +:+ sep +:+ b) = (true, None).
Proof.
  intros Ha Hb Hsep. rewrite MatchString_name_ok. f_equal.
  apply name_ok_chars in Ha as (ca & wa & HA & Hca & Hwa & _).
  apply name_ok_chars in Hb as (cb & wb & HB & Hcb & Hwb & Hlb).
  apply name_ok_chars.
  exists ca, (wa ++ list_ascii_of_string sep ++ cb :: wb).
  rewrite !list_ascii_of_string_app, HA, HB. split_and!; [done | done | |].
  - rewrite !forallb_app. simpl. unfold name_chars in Hsep.
    by rewrite Hwa, Hsep, Hwb, (word_char_name_char cb Hcb).
  - rewrite app_assoc, last_app_cons. simpl.
    destruct wb as [|x wb]; [done|]. simpl in *.
    by destruct (last (x :: wb)).
Qed.

(** X15.  Valid names compose: two accepted names joined by any run of name
    characters (a hyphen, a period, nothing at all) make a text the
    name-string type accepts again. *)
Theorem name_join `{C : Collaborators}
    (d : FieldData) (k : string) (s : FieldSchema) (raw : value)
    (a sep b : string) :
  Schema d !! k = Some s → Type_ s = TypeNameString →
  Raw d !! k = Some raw → WeakDecodeString raw = inr (a +:+ sep +:+ b) →
  name_ok a = true → name_ok b = true → name_chars sep = true →
  result_of (GetOkErr k) d = Ret (VString (a +:+ sep +:+ b), true, None).
Proof.
  intros Hs Ht Hraw Hd Ha Hb Hsep.
  assert (Hr : recognized (Type_ s) = true) by by rewrite Ht.
  pose proof (MatchString_name_join a sep b Ha Hb Hsep) as HM.
  rewrite MatchString_name_ok in HM. injection HM as HM.
  by rewrite (GetOkErr_recognized k s d Hs Hr),
    (getPrimitive_name k s d raw _ Ht Hraw Hd), HM.
Qed.

(** ** Instances *)

Lemma validated_accessors_witness :
  iteration service_request [("name", VString "web-1"); ("ttl", VString "2m")]
  ∧ result_of (Validate [("name", VString "web-1"); ("ttl", VString "2m")])
      service_request = Ret None
  ∧ ∃ v ok dz,
      result_of (GetOkErr "ttl") service_request = Ret (v, ok, None)
      ∧ result_of (GetOk "ttl") service_request = Ret (v, ok)
      ∧ DefaultOrZero (mkFieldSchema TypeDurationSecond None) = Ret dz
      ∧ result_of (Get "ttl") service_request = Ret (if ok then v else dz).
Proof.
  assert (Hit : iteration service_request
                  [("name", VString "web-1"); ("ttl", VString "2m")]).
  { unfold iteration. vm_compute. reflexivity. }
  assert (HV : result_of (Validate [("name", VString "web-1");
                                    ("ttl", VString "2m")])
                 service_request = Ret None) by reflexivity.
  split_and!; [exact Hit | exact HV |].
  apply (validated_accessors service_request _ "ttl"
           (mkFieldSchema TypeDurationSecond None) Hit HV); [reflexivity|].
  right. reflexivity.
Defined.

Lemma Validate_error_sound_witness :
  iteration two_failures [("a", VString "x"); ("b", VInt 1)]
  ∧ ∃ k v s, Raw two_failures !! k = Some v ∧ Schema two_failures !! k = Some s
      ∧ ((recognized (Type_ s) = false
          ∧ ErrConverting (VString "x") "a" (ErrLibrary "expected type int")
            = ErrUnknownFieldType (Type_ s) k)
         ∨ (∃ e', recognized (Type_ s) = true
                  ∧ coercion_fails (Type_ s) v e'
                  ∧ ErrConverting (VString "x") "a"
                      (ErrLibrary "expected type int")
                    = ErrConverting v k e')).
Proof.
  assert (Hit : iteration two_failures [("a", VString "x"); ("b", VInt 1)]).
  { unfold iteration. vm_compute. reflexivity. }
  split; [exact Hit|].
  apply (Validate_error_sound two_failures _ _ Hit). reflexivity.
Defined.

Lemma Validate_submap_witness :
  Raw service_ttl_only ⊆ Raw service_request
  ∧ result_of (Validate [("ttl", VString "2m")]) service_ttl_only = Ret None.
Proof.
  assert (Hsub : Raw service_ttl_only ⊆ Raw service_request).
  { apply insert_mono, map_empty_subseteq. }
  split; [exact Hsub|].
  apply (Validate_submap service_request service_ttl_only
           [("name", VString "web-1"); ("ttl", VString "2m")]);
    [unfold iteration; vm_compute; reflexivity
    | unfold iteration; vm_compute; reflexivity
    | reflexivity | exact Hsub | reflexivity].
Defined.

Lemma Validate_merge_witness :
  Raw service_ttl_only ##ₘ Raw service_name_only
  ∧ Raw service_request = Raw service_ttl_only ∪ Raw service_name_only
  ∧ result_of (Validate [("name", VString "web-1"); ("ttl", VString "2m")])
      service_request = Ret None.
Proof.
  assert (Hd : Raw service_ttl_only ##ₘ Raw service_name_only).
  { apply map_disjoint_insert_l_2; [reflexivity | apply map_disjoint_empty_l]. }
  assert (HU : Raw service_request
               = Raw service_ttl_only ∪ Raw service_name_only)
    by (vm_compute; reflexivity).
  split_and!; [exact Hd | exact HU |].
  apply (Validate_merge service_request service_ttl_only service_name_only
           _ [("ttl", VString "2m")] [("name", VString "web-1")]);
    [unfold iteration; vm_compute; reflexivity
    | unfold iteration; vm_compute; reflexivity
    | unfold iteration; vm_compute; reflexivity
    | reflexivity | reflexivity | exact Hd | exact HU |].
  split; reflexivity.
Defined.

Lemma present_value_kind_witness :
  result_of (GetOkErr "name") (name_request "my-secret.v1")
  = Ret (VString "my-secret.v1", true, None)
  ∧ has_kind TypeNameString (VString "my-secret.v1") = true
  ∧ ∃ str, VString "my-secret.v1" = VString str ∧ name_ok str = true.
Proof.
  assert (HG : result_of (GetOkErr "name") (name_request "my-secret.v1")
               = Ret (VString "my-secret.v1", true, None)) by reflexivity.
  destruct (present_value_kind (name_request "my-secret.v1") "name"
              (mkFieldSchema TypeNameString None) (VString "my-secret.v1"))
    as [H1 H2]; [reflexivity | by left |].
  split_and!; [exact HG | exact H1 | apply H2; reflexivity].
Defined.

Lemma not_present_iff_witness :
  Raw nil_ttl_request !! "ttl" = Some VNil
  ∧ result_of (GetOkErr "ttl") nil_ttl_request = Ret (VNil, false, None).
Proof.
  split; [reflexivity|].
  apply (not_present_iff nil_ttl_request "ttl"
           (mkFieldSchema TypeDurationSecond (Some (VInt 30))));
    [reflexivity | reflexivity |].
  right. split; reflexivity.
Defined.

Lemma accessors_local_witness :
  Raw service_request !! "ttl" = Raw service_ttl_only !! "ttl"
  ∧ Schema service_request !! "ttl" = Schema service_ttl_only !! "ttl"
  ∧ result_of (Get "ttl") service_request
    = result_of (Get "ttl") service_ttl_only.
Proof.
  split_and!; [reflexivity | reflexivity |].
  apply (accessors_local service_ttl_only service_request "ttl"); reflexivity.
Defined.

Lemma duration_integer_wraps_witness :
  well_formed (VUint64 (2 ^ 64 - 1)) = true
  ∧ ∃ m, result_of (GetOkErr "ttl") (ttl_request (VUint64 (2 ^ 64 - 1)))
         = Ret (VInt m, true, None)
         ∧ min_int ≤ m ≤ max_int
         ∧ (2 ^ 64 - 1 ≤ max_int → m = 2 ^ 64 - 1)
         ∧ (max_int < 2 ^ 64 - 1 → m = 2 ^ 64 - 1 - 2 ^ 64 ∧ m < 0).
Proof.
  split; [reflexivity|].
  apply (duration_integer_wraps (ttl_request (VUint64 (2 ^ 64 - 1))) "ttl"
           (mkFieldSchema TypeDurationSecond None) (VUint64 (2 ^ 64 - 1)));
    reflexivity.
Defined.

Lemma duration_redecode_witness :
  result_of (GetOkErr "ttl") (ttl_request (VString "2m"))
  = Ret (VInt 120, true, None)
  ∧ result_of (GetOkErr "ttl")
      (with_raw "ttl" (VInt 120) (ttl_request (VString "2m")))
    = Ret (VInt 120, true, None).
Proof.
  split; [reflexivity|].
  apply (duration_redecode (ttl_request (VString "2m")) "ttl"
           (mkFieldSchema TypeDurationSecond None)); reflexivity.
Defined.

Lemma duration_whole_seconds_witness :
  ParseDurationSecond "2m" = inr (120 * Second)
  ∧ min_int ≤ 120 * Second ≤ max_int
  ∧ result_of (GetOkErr "ttl") (ttl_request (VString "2m"))
    = Ret (VInt 120, true, None).
Proof.
  assert (Hb : min_int ≤ 120 * Second ≤ max_int) by (by vm_compute).
  split_and!; [reflexivity | apply Hb | apply Hb |].
  apply (duration_whole_seconds (ttl_request (VString "2m")) "ttl"
           (mkFieldSchema TypeDurationSecond None) "2m" 120);
    [reflexivity | reflexivity | reflexivity | reflexivity | exact Hb].
Defined.

Lemma duration_float_integer_witness :
  - 2 ^ 53 < 90 < 2 ^ 53
  ∧ result_of (GetOkErr "ttl") (ttl_request (VFloat64 (float64_of_int 90)))
    = Ret (VInt 90, true, None).
Proof.
  assert (Hb : - 2 ^ 53 < 90 < 2 ^ 53) by (by vm_compute).
  split; [exact Hb|].
  apply (duration_float_integer (ttl_request (VFloat64 (float64_of_int 90)))
           "ttl" (mkFieldSchema TypeDurationSecond None) 90);
    [reflexivity | reflexivity | reflexivity | exact Hb].
Defined.

Lemma Validate_order_witness :
  iteration two_failures [("a", VString "x"); ("b", VInt 1)]
  ∧ iteration two_failures [("b", VInt 1); ("a", VString "x")]
  ∧ (result_of (Validate [("a", VString "x"); ("b", VInt 1)]) two_failures
     = Ret None ↔
     result_of (Validate [("b", VInt 1); ("a", VString "x")]) two_failures
     = Ret None).
Proof.
  assert (H1 : iteration two_failures [("a", VString "x"); ("b", VInt 1)]).
  { unfold iteration. vm_compute. reflexivity. }
  assert (H2 : iteration two_failures [("b", VInt 1); ("a", VString "x")]).
  { unfold iteration. vm_compute. apply perm_swap. }
  split_and!; [exact H1 | exact H2 |].
  apply (Validate_order two_failures _ _ H1 H2).
Defined.

Lemma name_join_witness :
  name_ok "db" = true ∧ name_ok "primary-1" = true ∧ name_chars "." = true
  ∧ result_of (GetOkErr "name") (name_request "db.primary-1")
    = Ret (VString "db.primary-1", true, None).
Proof.
  split_and!; [reflexivity | reflexivity | reflexivity |].
  apply (name_join (name_request "db.primary-1") "name"
           (mkFieldSchema TypeNameString None) (VString "db.primary-1")
           "db" "." "primary-1"); reflexivity.
Defined.

Lemma Get_kind_witness :
  DefaultOrZero (mkFieldSchema TypeDurationSecond (Some (VInt 30)))
  = Ret (VInt 30)
  ∧ result_of (Get "ttl") empty_request = Ret (VInt 30)
  ∧ has_kind TypeDurationSecond (VInt 30) = true.
Proof.
  split_and!; [reflexivity | reflexivity |].
  apply (Get_kind empty_request "ttl"
           (mkFieldSchema TypeDurationSecond (Some (VInt 30)))
           (VInt 30) (VInt 30)); reflexivity.
Defined.
